(** * dubbo-admin CA: authority-certificate lifecycle

    A shallow embedding of the two Go packages of the certificate
    authority:

    - package [k8s]      : the cluster client ([GetAuthorityCert],
                           [UpdateAuthorityCert], [UpdateAuthorityPublicKey]);
    - package [security] : the server ([LoadAuthorityCert],
                           [RefreshAuthorityCert],
                           [ScheduleRefreshAuthorityCert], the TLS
                           [GetCertificate] callback of [Init]).

    The Kubernetes API server is modelled as a store value threaded through
    the client ([Kube], a state monad); every request is appended to a
    request log, so that "no update call was issued" is a statement about the
    log.  The collaborators of package [cert] (key generation, validity
    checks, PEM coding) are not part of these sources and are taken as
    parameters; its server-certificate resolver, which the TLS callback
    hands its work to, is modelled from the specification. *)

From Stdlib Require Import ZArith Lia.
From Stdlib Require Import Floats.SpecFloat.
From stdpp Require Import base option list strings gmap.

Local Open Scope Z_scope.
Local Open Scope string_scope.
Local Open Scope list_scope.

(* ===================================================================== *)
(** ** Package k8s                                                        *)
(* ===================================================================== *)

Module k8s.

(** Errors of the API server, as far as the client distinguishes them: it
    only ever tests [err != nil]. *)
Inductive error : Type := NotFound | AlreadyExists | Unavailable.

Inductive Verb : Type := VList | VGet | VCreate | VUpdate.
Inductive Resource : Type := RNamespaces | RSecrets | RConfigMaps.

#[global] Instance error_eq_dec : EqDecision error.
Proof. solve_decision. Defined.
#[global] Instance Verb_eq_dec : EqDecision Verb.
Proof. solve_decision. Defined.
#[global] Instance Resource_eq_dec : EqDecision Resource.
Proof. solve_decision. Defined.

(** One request sent to the API server, with its outcome ([None] is Go's
    [nil] error). *)
Record Request : Type := mkRequest {
  verb : Verb;
  resource : Resource;
  namespace : string;
  outcome : option error
}.

(** [v1.Secret] and [v1.ConfigMap], restricted to the fields the client
    touches ([Name], [Data]).  [[]byte(x)] and [string(x)] are inverse, so
    secret data is kept as strings.  A record held by the cluster carries an
    allocated [Data] map, as the records this client creates do; a record
    stored without any data, whose [Data] would come back as Go's nil map,
    is outside the model. *)
Record Secret : Type := mkSecret {
  SecretName : string;
  SecretData : gmap string string
}.

Record ConfigMap : Type := mkConfigMap {
  ConfigMapName : string;
  ConfigMapData : gmap string string
}.

(** Reading a Go map at a missing key yields the zero value. *)
Definition index (m : gmap string string) (key : string) : string :=
  default "" (m !! key).

(** The zero objects the typed client hands back together with an error
    ([result = &v1.Secret{}]): a record without name and data. *)
Definition zeroSecret : Secret := mkSecret "" ∅.
Definition zeroConfigMap : ConfigMap := mkConfigMap "" ∅.

(** The cluster as the client sees it.  The records named
    [dubbo-ca-secret] and [dubbo-ca-cert] are the only ones addressed, so
    both tables are keyed by namespace.  [requests] is the log, newest
    first; [outage i] says whether the request number [i] is lost (network
    failure, conflict, ...): any pattern of failures is a cluster. *)
Record Cluster : Type := mkCluster {
  Namespaces : list string;
  Secrets : gmap string Secret;
  ConfigMaps : gmap string ConfigMap;
  requests : list Request;
  outage : nat → bool
}.

Definition Kube (A : Type) : Type := Cluster → A * Cluster.

Definition ret {A : Type} (a : A) : Kube A := fun c => (a, c).

Definition bind {A B : Type} (m : Kube A) (f : A → Kube B) : Kube B :=
  fun c => let (a, c') := m c in f a c'.

Notation "'do' x <~ m ;; k" := (bind m (fun x => k))
  (at level 100, x name, m at next level, right associativity).
Notation "'do' ' p <~ m ;; k" := (bind m (fun x => let 'p := x in k))
  (at level 100, p pattern, m at next level, right associativity).

Definition lost (c : Cluster) : bool := outage c (length (requests c)).

Definition logged (v : Verb) (r : Resource) (ns : string) (e : option error)
    (c : Cluster) : Cluster :=
  mkCluster (Namespaces c) (Secrets c) (ConfigMaps c)
            (mkRequest v r ns e :: requests c) (outage c).

Definition withSecrets (t : gmap string Secret) (c : Cluster) : Cluster :=
  mkCluster (Namespaces c) t (ConfigMaps c) (requests c) (outage c).

Definition withConfigMaps (t : gmap string ConfigMap) (c : Cluster) : Cluster :=
  mkCluster (Namespaces c) (Secrets c) t (requests c) (outage c).

(** *** The typed client: [CoreV1().X(ns).Get/Create/Update], [Namespaces().List] *)

Definition NamespacesList : Kube (list string * option error) := fun c =>
  if lost c then (([], Some Unavailable), logged VList RNamespaces "" (Some Unavailable) c)
  else ((Namespaces c, None), logged VList RNamespaces "" None c).

Definition SecretsGet (ns : string) : Kube (Secret * option error) := fun c =>
  if lost c then ((zeroSecret, Some Unavailable), logged VGet RSecrets ns (Some Unavailable) c)
  else match Secrets c !! ns with
       | Some s => ((s, None), logged VGet RSecrets ns None c)
       | None => ((zeroSecret, Some NotFound), logged VGet RSecrets ns (Some NotFound) c)
       end.

Definition SecretsCreate (ns : string) (s : Secret) : Kube (option error) := fun c =>
  if lost c then (Some Unavailable, logged VCreate RSecrets ns (Some Unavailable) c)
  else match Secrets c !! ns with
       | Some _ => (Some AlreadyExists, logged VCreate RSecrets ns (Some AlreadyExists) c)
       | None => (None, logged VCreate RSecrets ns None (withSecrets (<[ns := s]> (Secrets c)) c))
       end.

Definition SecretsUpdate (ns : string) (s : Secret) : Kube (option error) := fun c =>
  if lost c then (Some Unavailable, logged VUpdate RSecrets ns (Some Unavailable) c)
  else match Secrets c !! ns with
       | Some _ => (None, logged VUpdate RSecrets ns None (withSecrets (<[ns := s]> (Secrets c)) c))
       | None => (Some NotFound, logged VUpdate RSecrets ns (Some NotFound) c)
       end.

Definition ConfigMapsGet (ns : string) : Kube (ConfigMap * option error) := fun c =>
  if lost c then ((zeroConfigMap, Some Unavailable), logged VGet RConfigMaps ns (Some Unavailable) c)
  else match ConfigMaps c !! ns with
       | Some m => ((m, None), logged VGet RConfigMaps ns None c)
       | None => ((zeroConfigMap, Some NotFound), logged VGet RConfigMaps ns (Some NotFound) c)
       end.

Definition ConfigMapsCreate (ns : string) (m : ConfigMap) : Kube (option error) := fun c =>
  if lost c then (Some Unavailable, logged VCreate RConfigMaps ns (Some Unavailable) c)
  else match ConfigMaps c !! ns with
       | Some _ => (Some AlreadyExists, logged VCreate RConfigMaps ns (Some AlreadyExists) c)
       | None => (None, logged VCreate RConfigMaps ns None
                          (withConfigMaps (<[ns := m]> (ConfigMaps c)) c))
       end.

Definition ConfigMapsUpdate (ns : string) (m : ConfigMap) : Kube (option error) := fun c =>
  if lost c then (Some Unavailable, logged VUpdate RConfigMaps ns (Some Unavailable) c)
  else match ConfigMaps c !! ns with
       | Some _ => (None, logged VUpdate RConfigMaps ns None
                            (withConfigMaps (<[ns := m]> (ConfigMaps c)) c))
       | None => (Some NotFound, logged VUpdate RConfigMaps ns (Some NotFound) c)
       end.

(** *** ClientImpl *)

(** [GetAuthorityCert]: the error of [Get] is logged and dropped; the data of
    whatever object came back is read. *)
Definition GetAuthorityCert (ns : string) : Kube (string * string) :=
  do '(s, _) <~ SecretsGet ns;;
  ret (index (SecretData s) "cert.pem", index (SecretData s) "pri.pem").

(** [UpdateAuthorityCert].  Lines 111-113 write into the [Data] of the
    object in hand: the local one after a failed [Get], else the fetched
    one, taken to carry data ([secretCarriesData] below says what the code
    does when it does not). *)
Definition UpdateAuthorityCert (cert pri ns : string) : Kube unit :=
  do '(s, err) <~ SecretsGet ns;;
  do s <~ match err with
       | Some _ =>
           let s := mkSecret "dubbo-ca-secret"
                      (<["pri.pem" := pri]> (<["cert.pem" := cert]> ∅)) in
           do _ <~ SecretsCreate ns s;;
           ret s
       | None => ret s
       end;;
  if String.eqb (index (SecretData s) "cert.pem") cert
     && String.eqb (index (SecretData s) "pri.pem") pri
  then ret tt
  else
    let s := mkSecret (SecretName s)
               (<["pri.pem" := pri]> (<["cert.pem" := cert]> (SecretData s))) in
    do _ <~ SecretsUpdate ns s;;
    ret tt.

(** Lines 148-159 of the loop body of [UpdateAuthorityPublicKey]: skip when
    the record already carries [cert], else overwrite.  The result [true]
    stands for going on to the next item, [false] for [return false].  As
    in [UpdateAuthorityCert], a fetched record is taken to carry data
    ([configMapsCarryData] below). *)
Definition overrideCa (cert n : string) (cm : ConfigMap) : Kube bool :=
  if String.eqb (index (ConfigMapData cm) "ca.crt") cert then ret true
  else
    let cm := mkConfigMap (ConfigMapName cm) (<["ca.crt" := cert]> (ConfigMapData cm)) in
    do err <~ ConfigMapsUpdate n cm;;
    match err with
    | Some _ => ret false
    | None => ret true
    end.

(** The body of the [range ns.Items] loop for one namespace other than
    [kube-system]. *)
Definition broadcastTo (cert n : string) : Kube bool :=
  do '(cm, err) <~ ConfigMapsGet n;;
  match err with
  | Some _ =>
      let cm := mkConfigMap "dubbo-ca-cert" (<["ca.crt" := cert]> ∅) in
      do err <~ ConfigMapsCreate n cm;;
      match err with
      | Some _ => ret false
      | None => overrideCa cert n cm
      end
  | None => overrideCa cert n cm
  end.

Fixpoint rangeItems (cert : string) (items : list string) : Kube bool :=
  match items with
  | [] => ret true
  | n :: rest =>
      if String.eqb n "kube-system" then rangeItems cert rest
      else
        do next <~ broadcastTo cert n;;
        if next then rangeItems cert rest else ret false
  end.

Definition UpdateAuthorityPublicKey (cert : string) : Kube bool :=
  do '(items, err) <~ NamespacesList;;
  match err with
  | Some _ => ret false
  | None => rangeItems cert items
  end.

(** *** Reading the request log *)

Definition isWrite (r : Request) : bool :=
  match verb r, outcome r with
  | VCreate, None | VUpdate, None => true
  | _, _ => false
  end.

Definition onConfigMap (n : string) (r : Request) : bool :=
  match resource r with
  | RConfigMaps => String.eqb (namespace r) n
  | _ => false
  end.

(** Requests that address the trust record of [n] at all. *)
Definition trustCalls (n : string) (log : list Request) : list Request :=
  List.filter (onConfigMap n) log.

(** Effective writes to the trust record of namespace [n]. *)
Definition trustWrites (n : string) (log : list Request) : nat :=
  length (List.filter isWrite (trustCalls n log)).

(** Update calls issued for the trust record of [n], whatever their outcome. *)
Definition trustUpdateCalls (n : string) (log : list Request) : nat :=
  length (List.filter (fun r => bool_decide (verb r = VUpdate)) (trustCalls n log)).

(** Requests that address a secret record, and those among them that
    changed one. *)
Definition secretCalls (log : list Request) : list Request :=
  List.filter (fun r => bool_decide (resource r = RSecrets)) log.

Definition secretWrites (log : list Request) : list Request :=
  List.filter (fun r => bool_decide (resource r = RSecrets) && isWrite r) log.

(** A request other than a [Get] that came back with an error: the failures
    [UpdateAuthorityPublicKey] does not recover from. *)
Definition failed (r : Request) : bool :=
  match verb r, outcome r with
  | VGet, _ => false
  | _, Some _ => true
  | _, None => false
  end.

(** The trust record of [n] carries [cert]. *)
Definition trusts (cert n : string) (c : Cluster) : Prop :=
  ∃ cm, ConfigMaps c !! n = Some cm ∧ index (ConfigMapData cm) "ca.crt" = cert.

(** No request is ever lost. *)
Definition reliable (c : Cluster) : Prop := ∀ i, outage c i = false.

(** What a stretch of the log says of the result of
    [UpdateAuthorityPublicKey]: [true] when no request failed, [false] when
    the newest request failed and none before it. *)
Definition verdict (b : bool) (new : list Request) : Prop :=
  if b then Forall (fun r => failed r = false) new
  else ∃ q rest, new = q :: rest ∧ failed q = true
                 ∧ Forall (fun r => failed r = false) rest.

(** The cluster after the requests [new] (newest first) were answered and
    left the trust records as [table]. *)
Definition answered (new : list Request) (table : gmap string ConfigMap)
    (c : Cluster) : Cluster :=
  mkCluster (Namespaces c) (Secrets c) table (new ++ requests c) (outage c).

(** The five ways through the loop body of [UpdateAuthorityPublicKey] for a
    namespace [n]: the result and the cluster it leaves. *)
Inductive broadcast_outcome (cert n : string) (c : Cluster) : bool → Cluster → Prop :=
| outcome_skip cm :
    ConfigMaps c !! n = Some cm →
    index (ConfigMapData cm) "ca.crt" = cert →
    broadcast_outcome cert n c true
      (answered [mkRequest VGet RConfigMaps n None] (ConfigMaps c) c)
| outcome_create e :
    ConfigMaps c !! n = None →
    broadcast_outcome cert n c true
      (answered [mkRequest VCreate RConfigMaps n None;
                 mkRequest VGet RConfigMaps n (Some e)]
         (<[n := mkConfigMap "dubbo-ca-cert" (<["ca.crt" := cert]> ∅)]> (ConfigMaps c)) c)
| outcome_update cm :
    ConfigMaps c !! n = Some cm →
    index (ConfigMapData cm) "ca.crt" ≠ cert →
    broadcast_outcome cert n c true
      (answered [mkRequest VUpdate RConfigMaps n None;
                 mkRequest VGet RConfigMaps n None]
         (<[n := mkConfigMap (ConfigMapName cm)
                   (<["ca.crt" := cert]> (ConfigMapData cm))]> (ConfigMaps c)) c)
| outcome_create_failed e e' :
    broadcast_outcome cert n c false
      (answered [mkRequest VCreate RConfigMaps n (Some e');
                 mkRequest VGet RConfigMaps n (Some e)] (ConfigMaps c) c)
| outcome_update_failed cm e :
    ConfigMaps c !! n = Some cm →
    index (ConfigMapData cm) "ca.crt" ≠ cert →
    broadcast_outcome cert n c false
      (answered [mkRequest VUpdate RConfigMaps n (Some e);
                 mkRequest VGet RConfigMaps n None] (ConfigMaps c) c).

(** *** Records that carry data

    [s.Data["cert.pem"] = ...] (line 111) and [cm.Data["ca.crt"] = cert]
    (line 152) assign into the map of the object a successful [Get] handed
    back.  A record stored without a single entry comes back with Go's nil
    map, and the assignment panics: the process ends there and no [Update]
    is sent.  [UpdateAuthorityCert] and [overrideCa] follow the code on
    records that carry data, and whatever is stated of an overwrite, or of
    a call going through, is stated for those: the secret of one namespace,
    the trust records of a cluster.  The records the client itself creates
    carry data. *)
Definition secretCarriesData (ns : string) (c : Cluster) : Prop :=
  ∀ s, Secrets c !! ns = Some s → SecretData s ≠ ∅.

Definition configMapsCarryData (c : Cluster) : Prop :=
  map_Forall (fun _ cm => ConfigMapData cm ≠ ∅) (ConfigMaps c).

End k8s.

(* ===================================================================== *)
(** ** Package security                                                   *)
(* ===================================================================== *)

Module security.
Import k8s.

(** [cert.Cert]: the decoded certificate and the private key are pointers
    ([None] is [nil]). *)
Record Cert (X509 Key : Type) : Type := mkCert {
  X509Cert : option X509;
  CertPem : string;
  PrivateKey : option Key
}.
Arguments mkCert {X509 Key} _ _ _.
Arguments X509Cert {X509 Key} _.
Arguments CertPem {X509 Key} _.
Arguments PrivateKey {X509 Key} _.

(** The functions of package [cert] the server calls.  [IsValid] and
    [NeedRefresh] read the wall clock, [GenerateAuthorityCert] the clock and
    a source of randomness: both are arguments here. *)
Record CryptoProvider (X509 Key : Type) : Type := mkCryptoProvider {
  DecodeCert : string → option X509;
  DecodePrivateKey : string → option Key;
  EncodePri : option Key → string;
  GenerateAuthorityCert : nat → Z → option (Cert X509 Key) → Z → Cert X509 Key;
  IsValid : Z → Cert X509 Key → bool;
  NeedRefresh : Z → Cert X509 Key → bool
}.
Arguments DecodeCert {X509 Key} _ _.
Arguments DecodePrivateKey {X509 Key} _ _.
Arguments EncodePri {X509 Key} _ _.
Arguments GenerateAuthorityCert {X509 Key} _ _ _ _ _.
Arguments IsValid {X509 Key} _ _ _.
Arguments NeedRefresh {X509 Key} _ _ _.

(** [config.Options], the fields read here. [CaValidity] is an [int64]
    number of milliseconds. *)
Record Options : Type := mkOptions {
  Namespace : string;
  CaValidity : Z
}.

(** [os.Signal] *)
Definition Signal : Type := nat.

(** [float64(v)] for an integer [v]: the IEEE 754 binary64 number nearest
    to it (ties to even), in the Standard Library's specification of
    binary64 ([prec = 53], [emax = 1024]). *)
Definition float64 (v : Z) : spec_float := binary_normalize 53 1024 v 0 false.

(** [math.Floor], read as an integer.  Infinities and NaN do not arise from
    an [int64] divided by [100]. *)
Definition Floor (x : spec_float) : Z :=
  match x with
  | S754_finite s m e =>
      let z := if s then Zneg m else Zpos m in
      if (0 <=? e)%Z then z * 2 ^ e else z / 2 ^ (- e)
  | _ => 0
  end.

(** [math.Min(math.Floor(float64(CaValidity)/100), 10_000)]: the division
    is the binary64 one; the floor is integral, so the minimum with
    [10000] and the later conversion [time.Duration(interval)] are taken on
    the integer. *)
Definition interval (caValidity : Z) : Z :=
  Z.min (Floor (SFdiv 53 1024 (float64 caValidity) (float64 100))) 10000.

(** The mantissa of [100.0]: [100 * 2^46]. *)
Definition hundred : positive := 7036874417766400.

(** [int64] wrap-around of [time.Duration] arithmetic. *)
Definition wrap64 (z : Z) : Z :=
  (z + 2 ^ 63) mod 2 ^ 64 - 2 ^ 63.

(** [time.Duration(interval) * time.Millisecond], in nanoseconds. *)
Definition sleepNanos (interval : Z) : Z := wrap64 (interval * 1000000).

Section Server.

Context {X509 Key : Type}.

(** [cert.Storage]: [RootCert] may be [nil] ([LoadRootCert] is still a
    stub); [AuthorityCert] points to a record from [NewStorage] on. *)
Record Storage : Type := mkStorage {
  RootCert : option (Cert X509 Key);
  AuthorityCert : Cert X509 Key;
  TrustedCert : list (Cert X509 Key)
}.

(** [Server] ([Opts] is its field [Options]), with the two things of the
    outside world its methods read: the wall clock [Now] (nanoseconds) and
    [Entropy], the number of draws made from the random source. *)
Record Server : Type := mkServer {
  StopChan : list Signal;
  Opts : Options;
  CertStorage : Storage;
  KubeClient : Cluster;
  Now : Z;
  Entropy : nat
}.

Variable crypto : CryptoProvider X509 Key.

Definition withAuthorityCert (a : Cert X509 Key) (s : Server) : Server :=
  mkServer (StopChan s) (Opts s)
    (mkStorage (RootCert (CertStorage s)) a (TrustedCert (CertStorage s)))
    (KubeClient s) (Now s) (Entropy s).

Definition withTrustedCert (t : list (Cert X509 Key)) (s : Server) : Server :=
  mkServer (StopChan s) (Opts s)
    (mkStorage (RootCert (CertStorage s)) (AuthorityCert (CertStorage s)) t)
    (KubeClient s) (Now s) (Entropy s).

Definition withStorage (st : Storage) (s : Server) : Server :=
  mkServer (StopChan s) (Opts s) st (KubeClient s) (Now s) (Entropy s).

Definition withKubeClient (k : Cluster) (s : Server) : Server :=
  mkServer (StopChan s) (Opts s) (CertStorage s) k (Now s) (Entropy s).

Definition withStopChan (ch : list Signal) (s : Server) : Server :=
  mkServer ch (Opts s) (CertStorage s) (KubeClient s) (Now s) (Entropy s).

Definition withNow (t : Z) (s : Server) : Server :=
  mkServer (StopChan s) (Opts s) (CertStorage s) (KubeClient s) t (Entropy s).

Definition drawn (s : Server) : Server :=
  mkServer (StopChan s) (Opts s) (CertStorage s) (KubeClient s) (Now s) (S (Entropy s)).

(** [s.CertStorage.AuthorityCert = cert.GenerateAuthorityCert(s.CertStorage.RootCert, s.Options.CaValidity)] *)
Definition generate (s : Server) : Server :=
  drawn (withAuthorityCert
           (GenerateAuthorityCert crypto (Entropy s) (Now s)
              (RootCert (CertStorage s)) (CaValidity (Opts s))) s).

(** [s.KubeClient.UpdateAuthorityCert(AuthorityCert.CertPem, cert.EncodePri(AuthorityCert.PrivateKey), s.Options.Namespace)] *)
Definition persist (s : Server) : Server :=
  let a := AuthorityCert (CertStorage s) in
  withKubeClient
    (snd (UpdateAuthorityCert (CertPem a) (EncodePri crypto (PrivateKey a))
            (Namespace (Opts s)) (KubeClient s))) s.

(** [s.KubeClient.UpdateAuthorityPublicKey(AuthorityCert.CertPem)]; both
    branches on the result only log. *)
Definition publish (s : Server) : Server :=
  withKubeClient
    (snd (UpdateAuthorityPublicKey (CertPem (AuthorityCert (CertStorage s)))
            (KubeClient s))) s.

Definition RefreshAuthorityCert (s : Server) : Server :=
  let s :=
    if IsValid crypto (Now s) (AuthorityCert (CertStorage s)) then s
    else persist (generate s) in
  let s := publish s in
  withTrustedCert (TrustedCert (CertStorage s) ++ [AuthorityCert (CertStorage s)]) s.

(** [LoadAuthorityCert] up to the [go] statement that starts the loop. *)
Definition LoadAuthorityCert (s : Server) : Server :=
  let '((certStr, priStr), k) := GetAuthorityCert (Namespace (Opts s)) (KubeClient s) in
  let s := withKubeClient k s in
  let s :=
    if negb (String.eqb certStr "") && negb (String.eqb priStr "")
    then withAuthorityCert
           (mkCert (DecodeCert crypto certStr) certStr (DecodePrivateKey crypto priStr)) s
    else s in
  RefreshAuthorityCert s.

(** *** The loop of [ScheduleRefreshAuthorityCert] *)

(** [time.Sleep(d)]: returns at once when [d <= 0]. *)
Definition sleep (interval : Z) (s : Server) : Server :=
  withNow (Now s + Z.max 0 (sleepNanos interval)) s.

(** Lines 119-130: the refresh check. *)
Definition refreshCheck (s : Server) : Server :=
  if NeedRefresh crypto (Now s) (AuthorityCert (CertStorage s))
  then publish (persist (generate s))
  else s.

(** A signal sent to the channel of capacity one ([make(chan os.Signal, 1)])
    without blocking: dropped when the buffer is full. *)
Definition notify (sig : Signal) (s : Server) : Server :=
  match StopChan s with
  | [] => withStopChan [sig] s
  | _ :: _ => s
  end.

Inductive Point : Type := AtSleep | AtRefresh | AtSelect | Returned.

(** The goroutine: where it stands, its local [interval], the server. *)
Record Loop : Type := mkLoop {
  point : Point;
  pollInterval : Z;
  server : Server
}.

(** Entering [ScheduleRefreshAuthorityCert]: line 116. *)
Definition enter (s : Server) : Loop :=
  mkLoop AtSleep (interval (CaValidity (Opts s))) s.

Inductive Label : Type :=
| LSleep | LRefresh | LContinue | LReturn | LSignal (sig : Signal).

(** One step of the goroutine, or the arrival of a signal from outside,
    which can happen wherever the goroutine stands. *)
Inductive step : Loop → Label → Loop → Prop :=
| step_sleep i s :
    step (mkLoop AtSleep i s) LSleep (mkLoop AtRefresh i (sleep i s))
| step_refresh i s :
    step (mkLoop AtRefresh i s) LRefresh (mkLoop AtSelect i (refreshCheck s))
| step_return i s sig rest :
    StopChan s = sig :: rest →
    step (mkLoop AtSelect i s) LReturn (mkLoop Returned i (withStopChan rest s))
| step_continue i s :
    StopChan s = [] →
    step (mkLoop AtSelect i s) LContinue (mkLoop AtSleep i s)
| step_signal p i s sig :
    step (mkLoop p i s) (LSignal sig) (mkLoop p i (notify sig s)).

Inductive steps : Loop → list Label → Loop → Prop :=
| steps_nil l : steps l [] l
| steps_cons l1 a l2 tr l3 : step l1 a l2 → steps l2 tr l3 → steps l1 (a :: tr) l3.

(** The same loop as a function: [arrivals k] are the signals that arrive
    during the iteration number [k] (sleep and refresh check), [fuel] bounds
    the iterations run.  [None]: still looping. *)
Definition iteration (i : Z) (arrived : list Signal) (s : Server) : Server :=
  refreshCheck (foldr notify (sleep i s) (rev arrived)).

Fixpoint loop (fuel : nat) (i : Z) (arrivals : nat → list Signal) (k : nat)
    (s : Server) : option (nat * Server) :=
  match fuel with
  | O => None
  | S fuel =>
      let s := iteration i (arrivals k) s in
      match StopChan s with
      | _ :: rest => Some (S k, withStopChan rest s)
      | [] => loop fuel i arrivals (S k) s
      end
  end.

Definition ScheduleRefreshAuthorityCert (fuel : nat) (arrivals : nat → list Signal)
    (s : Server) : option (nat * Server) :=
  loop fuel (interval (CaValidity (Opts s))) arrivals 0%nat s.

(** What the goroutine itself did along a run: the labels other than
    signal arrivals; [cycles k] are [k] full iterations that went on. *)
Definition isSignal (a : Label) : bool :=
  match a with
  | LSignal _ => true
  | _ => false
  end.

Definition program (tr : list Label) : list Label :=
  List.filter (fun a => negb (isSignal a)) tr.

Fixpoint cycles (k : nat) : list Label :=
  match k with
  | O => []
  | S k => LSleep :: LRefresh :: LContinue :: cycles k
  end.

(** What the goroutine still has to do before it returns, seen from where it
    stands. *)
Definition remaining (p : Point) (tr : list Label) : Prop :=
  match p with
  | AtSleep => ∃ k, program tr = cycles k ++ [LSleep; LRefresh; LReturn]
  | AtRefresh =>
      program tr = [LRefresh; LReturn]
      ∨ ∃ k, program tr = LRefresh :: LContinue :: cycles k ++ [LSleep; LRefresh; LReturn]
  | AtSelect =>
      program tr = [LReturn]
      ∨ ∃ k, program tr = LContinue :: cycles k ++ [LSleep; LRefresh; LReturn]
  | Returned => program tr = []
  end.

(** *** The certificate callback of the TLS configuration ([Init], lines 84-92) *)

Record ClientHelloInfo : Type := mkClientHelloInfo { ServerName : string }.

(** Modelled from the spec: a leaf (server) certificate of package [cert],
    which is not part of these sources -- "a short-lived certificate issued
    for a specific hostname, signed by the authority cert": the hostname it
    was issued for and the authority cert that signed it. *)
Record Leaf : Type := mkLeaf {
  LeafHost : string;
  LeafSigner : Cert X509 Key
}.

(** Modelled from the spec: [GetServerCert], a method of [cert.Storage]
    that is not part of these sources -- "if serverCertCache has an entry
    for the exact hostname, return it; otherwise synthesize a new leaf cert
    (collaborator responsibility), cache it, and return it", where "all
    newly issued leaf/server certs are signed by" the active authority
    cert.  The cache, a "mapping from hostname (SNI name) to a
    lazily-issued leaf certificate", is kept beside the record [Storage],
    which holds the fields the server itself reads and writes. *)
Definition GetServerCert (st : Storage) (cache : gmap string Leaf) (host : string)
    : Leaf * gmap string Leaf :=
  match cache !! host with
  | Some leaf => (leaf, cache)
  | None =>
      let leaf := mkLeaf host (AuthorityCert st) in
      (leaf, <[host := leaf]> cache)
  end.

(** [GetCertificate], lines 85-87: Go's pair of a certificate pointer and
    an error, [return s.CertStorage.GetServerCert(info.ServerName), nil]. *)
Definition GetCertificate (s : Server) (cache : gmap string Leaf) (info : ClientHelloInfo)
    : (option Leaf * option string) * gmap string Leaf :=
  let (leaf, cache) := GetServerCert (CertStorage s) cache (ServerName info) in
  ((Some leaf, None), cache).

(** Lines 90-92: the three names resolved ahead of the first handshake. *)
Definition prewarm (s : Server) (cache : gmap string Leaf) : gmap string Leaf :=
  let cache := snd (GetServerCert (CertStorage s) cache "localhost") in
  let cache := snd (GetServerCert (CertStorage s) cache
                      ("dubbo-ca." +:+ Namespace (Opts s) +:+ ".svc")) in
  snd (GetServerCert (CertStorage s) cache
         ("dubbo-ca." +:+ Namespace (Opts s) +:+ ".svc.cluster.local")).

(** Every entry of the cache is a leaf for the name it is filed under. *)
Definition keyed (cache : gmap string Leaf) : Prop :=
  map_Forall (fun host leaf => LeafHost leaf = host) cache.

End Server.

Arguments Storage : clear implicits.
Arguments Server : clear implicits.
Arguments Loop : clear implicits.
Arguments Leaf : clear implicits.

End security.

(* ===================================================================== *)
(** ** Concrete clusters and collaborators                                *)
(* ===================================================================== *)

Module Scenario.
Import k8s security.

(** A fresh cluster that answers every request: three namespaces, no
    record yet. *)
Definition mesh : Cluster :=
  mkCluster ["kube-system"; "mesh"; "apps"] ∅ ∅ [] (fun _ => false).

(** The same cluster once a CA has stored its secret. *)
Definition stored : Cluster :=
  withSecrets
    (<["mesh" := mkSecret "dubbo-ca-secret"
                   (<["pri.pem" := "KEY-IIIIIII"]> (<["cert.pem" := "CA-LOADED"]> ∅))]> ∅)
    mesh.

(** Two namespaces, the first with an outdated trust record; the third
    request sent to the cluster (after the listing and the [Get] of [alpha],
    the update of [alpha]) is lost. *)
Definition flaky : Cluster :=
  mkCluster ["alpha"; "beta"] ∅
    (<["alpha" := mkConfigMap "dubbo-ca-cert" (<["ca.crt" := "OLD"]> ∅)]> ∅)
    [] (fun i => Nat.eqb i 2).

(** Both namespaces of this one trust ["NEW"] already. *)
Definition settled : Cluster :=
  mkCluster ["alpha"; "beta"] ∅
    (<["beta" := mkConfigMap "dubbo-ca-cert" (<["ca.crt" := "NEW"]> ∅)]>
       (<["alpha" := mkConfigMap "dubbo-ca-cert" (<["ca.crt" := "NEW"]> ∅)]> ∅))
    [] (fun _ => false).

(** A certificate as far as this collaborator looks at it: its validity
    window, in nanoseconds. *)
Record Window : Type := mkWindow { NotBefore : Z; NotAfter : Z }.

(** A collaborator in the way of package [cert]: every generated cert has
    its own key and PEM text, is valid over its window, and wants a refresh
    once less than a fifth of the window remains. *)
Definition pem (serial : nat) : string :=
  "CA-" +:+ String.concat "" (replicate serial "I").

Definition inWindow (now : Z) (c : Cert Window nat) : bool :=
  match X509Cert c, PrivateKey c with
  | Some w, Some _ => (NotBefore w <=? now)%Z && (now <=? NotAfter w)%Z
  | _, _ => false
  end.

Definition expiring (now : Z) (c : Cert Window nat) : bool :=
  match X509Cert c, PrivateKey c with
  | Some w, Some _ =>
      negb ((NotBefore w <=? now)%Z && (now <=? NotAfter w)%Z)
      || ((NotAfter w - now) * 5 <? NotAfter w - NotBefore w)%Z
  | _, _ => true
  end.

(** The cert the secret of [stored] decodes to: valid from [494 s] before
    the clock's origin to [6 s] after it. *)
Definition loaded : Cert Window nat :=
  mkCert (Some (mkWindow (-494000000000) 6000000000)) "CA-LOADED" (Some 7%nat).

Definition provider : CryptoProvider Window nat :=
  mkCryptoProvider Window nat
    (fun pem => if String.eqb pem "CA-LOADED" then X509Cert loaded else None)
    (fun pri => if String.eqb pri "KEY-IIIIIII" then PrivateKey loaded else None)
    (fun k => match k with
              | Some n => "KEY-" +:+ String.concat "" (replicate n "I")
              | None => ""
              end)
    (fun serial now _ validity =>
       mkCert (Some (mkWindow now (now + validity * 1000000))) (pem serial) (Some serial))
    inWindow expiring.

(** A CA restarted on [stored] with its secret loaded: the cert is still
    valid at start-up (the clock reads [0]) and expires [6 s] later. *)
Definition restarted : Server Window nat :=
  mkServer [] (mkOptions "mesh" 500000)
    (mkStorage None loaded []) stored 0 0%nat.

(** The same CA on first start: nothing stored, an empty authority cert. *)
Definition firstStart : Server Window nat :=
  mkServer [] (mkOptions "mesh" 500000)
    (mkStorage None (mkCert None "" None) []) mesh 0 0%nat.

End Scenario.

(* ===================================================================== *)
(** ** The rest of the client                                             *)
(* ===================================================================== *)

Module tokenreview.
Import k8s.

(** [k8sauth.TokenReviewStatus], the fields a caller could look at. *)
Record Status : Type := mkStatus {
  Authenticated : bool;
  Username : string;
  Audiences : list string;
  Error : string
}.

Definition withAuthenticated (b : bool) (st : Status) : Status :=
  mkStatus b (Username st) (Audiences st) (Error st).

(** [VerifyServiceAccount]: [create] is
    [AuthenticationV1().TokenReviews().Create] applied to the review built
    from the token, answering with the status of the review it returns and
    an error. *)
Definition VerifyServiceAccount (create : string → Status * option error)
    (token : string) : bool :=
  let (status, err) := create token in
  match err with
  | Some _ => false
  | None => if negb (String.eqb (Error status) "") then false else true
  end.

End tokenreview.

Module outcomes.
Import k8s.

(** The cluster after the requests [new] (newest first) were answered and
    left the secret records as [table]. *)
Definition persisted (new : list Request) (table : gmap string Secret)
    (c : Cluster) : Cluster :=
  mkCluster (Namespaces c) table (ConfigMaps c) (new ++ requests c) (outage c).

(** The content [UpdateAuthorityCert] compares. *)
Definition sameContent (cert pri : string) (s : Secret) : bool :=
  String.eqb (index (SecretData s) "cert.pem") cert
  && String.eqb (index (SecretData s) "pri.pem") pri.

(** The five ways through [UpdateAuthorityCert]. *)
Inductive secret_outcome (cert pri ns : string) (c : Cluster) : Cluster → Prop :=
| secret_created e :
    Secrets c !! ns = None →
    secret_outcome cert pri ns c
      (persisted [mkRequest VCreate RSecrets ns None;
                  mkRequest VGet RSecrets ns (Some e)]
         (<[ns := mkSecret "dubbo-ca-secret"
                    (<["pri.pem" := pri]> (<["cert.pem" := cert]> ∅))]> (Secrets c)) c)
| secret_create_failed e e' :
    secret_outcome cert pri ns c
      (persisted [mkRequest VCreate RSecrets ns (Some e');
                  mkRequest VGet RSecrets ns (Some e)] (Secrets c) c)
| secret_kept s :
    Secrets c !! ns = Some s →
    sameContent cert pri s = true →
    secret_outcome cert pri ns c
      (persisted [mkRequest VGet RSecrets ns None] (Secrets c) c)
| secret_updated s :
    Secrets c !! ns = Some s →
    sameContent cert pri s = false →
    secret_outcome cert pri ns c
      (persisted [mkRequest VUpdate RSecrets ns None;
                  mkRequest VGet RSecrets ns None]
         (<[ns := mkSecret (SecretName s)
                    (<["pri.pem" := pri]> (<["cert.pem" := cert]> (SecretData s)))]>
            (Secrets c)) c)
| secret_update_failed s e :
    Secrets c !! ns = Some s →
    sameContent cert pri s = false →
    secret_outcome cert pri ns c
      (persisted [mkRequest VUpdate RSecrets ns (Some e);
                  mkRequest VGet RSecrets ns None] (Secrets c) c).

(** Two records that differ at most in the entry [key] of their data. *)
Definition secretsAgreeOff (keys : list string) (s s' : Secret) : Prop :=
  SecretName s' = SecretName s
  ∧ ∀ k, k ∉ keys → SecretData s' !! k = SecretData s !! k.

Definition configMapsAgreeOff (keys : list string) (m m' : ConfigMap) : Prop :=
  ConfigMapName m' = ConfigMapName m
  ∧ ∀ k, k ∉ keys → ConfigMapData m' !! k = ConfigMapData m !! k.

End outcomes.

Module Cases.
Import k8s security.

(** A cluster whose secret and one of whose trust records carry entries
    of other owners beside the CA's. *)
Definition annotated : Cluster :=
  mkCluster ["kube-system"; "mesh"; "apps"]
    (<["mesh" := mkSecret "dubbo-ca-secret"
                   (<["owner" := "ops"]>
                      (<["pri.pem" := "KEY-OLD"]> (<["cert.pem" := "CA-OLD"]> ∅)))]> ∅)
    (<["apps" := mkConfigMap "dubbo-ca-cert"
                   (<["owner" := "ops"]> (<["ca.crt" := "CA-OLD"]> ∅))]> ∅)
    [] (fun _ => false).

(** [Scenario.stored] with the first request lost and every later one
    answered. *)
Definition blinking : Cluster :=
  mkCluster (Namespaces Scenario.stored) (Secrets Scenario.stored)
    (ConfigMaps Scenario.stored) [] (fun i => Nat.eqb i 0).

(** First start of the CA on [blinking]. *)
Definition unlucky : Server Scenario.Window nat :=
  withKubeClient blinking Scenario.firstStart.

(** Three namespaces with outdated records; the update of the second is
    lost (request number 4). *)
Definition halfway : Cluster :=
  mkCluster ["alpha"; "beta"; "gamma"] ∅
    (<["gamma" := mkConfigMap "dubbo-ca-cert" (<["ca.crt" := "OLD"]> ∅)]>
       (<["beta" := mkConfigMap "dubbo-ca-cert" (<["ca.crt" := "OLD"]> ∅)]>
          (<["alpha" := mkConfigMap "dubbo-ca-cert" (<["ca.crt" := "OLD"]> ∅)]> ∅)))
    [] (fun i => Nat.eqb i 4).

(** Signals that arrive during the third iteration only. *)
Definition lateSignal (k : nat) : list Signal :=
  if Nat.eqb k 2 then [15%nat; 2%nat] else [].

End Cases.

(* ===================================================================== *)
(** ** Properties of the cluster client                                   *)
(* ===================================================================== *)

Import k8s security.

Ltac kube_unfold :=
  unfold UpdateAuthorityCert, GetAuthorityCert, broadcastTo, overrideCa,
    SecretsGet, SecretsCreate, SecretsUpdate,
    ConfigMapsGet, ConfigMapsCreate, ConfigMapsUpdate, NamespacesList,
    bind, ret, lost, logged, withSecrets, withConfigMaps in *; simpl in *.

Lemma index_insert (m : gmap string string) (k v : string) :
  index (<[k := v]> m) k = v.
Proof. unfold index. by rewrite lookup_insert_eq. Qed.

Lemma index_insert_ne (m : gmap string string) (k k' v : string) :
  k ≠ k' → index (<[k := v]> m) k' = index m k'.
Proof. intros H. unfold index. by rewrite lookup_insert_ne. Qed.

(** *** Runs on the concrete clusters *)

(** A broadcast on the fresh cluster: [kube-system] is passed over, each of
    the other namespaces gets a failed [Get] and a [Create]. *)
Example broadcast_on_mesh :
  UpdateAuthorityPublicKey "PEM" Scenario.mesh
  = (true,
     mkCluster ["kube-system"; "mesh"; "apps"] ∅
       (<["apps" := mkConfigMap "dubbo-ca-cert" (<["ca.crt" := "PEM"]> ∅)]>
          (<["mesh" := mkConfigMap "dubbo-ca-cert" (<["ca.crt" := "PEM"]> ∅)]> ∅))
       [mkRequest VCreate RConfigMaps "apps" None;
        mkRequest VGet RConfigMaps "apps" (Some NotFound);
        mkRequest VCreate RConfigMaps "mesh" None;
        mkRequest VGet RConfigMaps "mesh" (Some NotFound);
        mkRequest VList RNamespaces "" None]
       (outage Scenario.mesh)).
Proof. reflexivity. Qed.

(** The lost update on [Scenario.flaky]: the call stops there. *)
Example broadcast_on_flaky :
  fst (UpdateAuthorityPublicKey "NEW" Scenario.flaky) = false
  ∧ requests (snd (UpdateAuthorityPublicKey "NEW" Scenario.flaky))
    = [mkRequest VUpdate RConfigMaps "alpha" (Some Unavailable);
       mkRequest VGet RConfigMaps "alpha" None;
       mkRequest VList RNamespaces "" None].
Proof. split; reflexivity. Qed.

(** Bootstrap on first start: a cert is generated, stored in the secret of
    [mesh], broadcast, and trusted. *)
Example bootstrap_on_first_start :
  let s := RefreshAuthorityCert Scenario.provider Scenario.firstStart in
  CertPem (AuthorityCert (CertStorage s)) = "CA-"
  ∧ TrustedCert (CertStorage s) = [AuthorityCert (CertStorage s)]
  ∧ (SecretData <$> Secrets (KubeClient s) !! "mesh")
    = Some (<["pri.pem" := "KEY-"]> (<["cert.pem" := "CA-"]> ∅))
  ∧ requests (KubeClient s)
    = [mkRequest VCreate RConfigMaps "apps" None;
       mkRequest VGet RConfigMaps "apps" (Some NotFound);
       mkRequest VCreate RConfigMaps "mesh" None;
       mkRequest VGet RConfigMaps "mesh" (Some NotFound);
       mkRequest VList RNamespaces "" None;
       mkRequest VCreate RSecrets "mesh" None;
       mkRequest VGet RSecrets "mesh" (Some NotFound)].
Proof. repeat split; reflexivity. Qed.

(** Start-up on [Scenario.stored]: the secret is read and decoded, the cert
    is valid and kept, no secret is written. *)
Example start_up_on_stored :
  let s := LoadAuthorityCert Scenario.provider
             (withKubeClient Scenario.stored Scenario.firstStart) in
  AuthorityCert (CertStorage s) = Scenario.loaded
  ∧ TrustedCert (CertStorage s) = [Scenario.loaded]
  ∧ secretCalls (requests (KubeClient s)) = [mkRequest VGet RSecrets "mesh" None]
  ∧ Secrets (KubeClient s) = Secrets Scenario.stored.
Proof. repeat split; reflexivity. Qed.

(** The binary64 interval on a few validities, the default of thirty days
    among them. *)
Example interval_samples :
  List.map interval [0; 99; 100; 199; 999999; 1000000; 2592000000]
  = [0; 0; 1; 1; 9999; 10000; 10000].
Proof. reflexivity. Qed.

(** C9: when the secret record of a namespace does not exist,
    [GetAuthorityCert] returns the pair of empty strings; its result type
    has no error component, and the store tables are left as they were. *)
Theorem GetAuthorityCert_absent (ns : string) (c : Cluster) :
  Secrets c !! ns = None →
  fst (GetAuthorityCert ns c) = ("", "")
  ∧ Secrets (snd (GetAuthorityCert ns c)) = Secrets c
  ∧ ConfigMaps (snd (GetAuthorityCert ns c)) = ConfigMaps c.
Proof.
  intros Habsent. kube_unfold. rewrite Habsent.
  destruct (outage c (length (requests c))); simpl; auto.
Qed.

Lemma GetAuthorityCert_absent_witness :
  Secrets Scenario.mesh !! "mesh" = None
  ∧ fst (GetAuthorityCert "mesh" Scenario.mesh) = ("", "").
Proof.
  split; [reflexivity|].
  apply (GetAuthorityCert_absent "mesh" Scenario.mesh). reflexivity.
Defined.

Lemma fresh_secret_matches (cert pri : string) :
  String.eqb (index (<["pri.pem" := pri]> (<["cert.pem" := cert]> ∅)) "cert.pem") cert
  && String.eqb (index (<["pri.pem" := pri]> (<["cert.pem" := cert]> ∅)) "pri.pem") pri
  = true.
Proof.
  rewrite index_insert, index_insert_ne by done.
  rewrite index_insert. by rewrite !String.eqb_refl.
Qed.

(** What [UpdateAuthorityCert] does on a cluster that answers every
    request, by the state of the secret record. *)
Lemma UpdateAuthorityCert_reliable (cert pri ns : string) (c : Cluster) :
  reliable c →
  match Secrets c !! ns with
  | None =>
      Secrets (snd (UpdateAuthorityCert cert pri ns c))
      = <[ns := mkSecret "dubbo-ca-secret"
                  (<["pri.pem" := pri]> (<["cert.pem" := cert]> ∅))]> (Secrets c)
      ∧ requests (snd (UpdateAuthorityCert cert pri ns c))
        = mkRequest VCreate RSecrets ns None
          :: mkRequest VGet RSecrets ns (Some NotFound) :: requests c
  | Some s =>
      if String.eqb (index (SecretData s) "cert.pem") cert
         && String.eqb (index (SecretData s) "pri.pem") pri
      then Secrets (snd (UpdateAuthorityCert cert pri ns c)) = Secrets c
           ∧ requests (snd (UpdateAuthorityCert cert pri ns c))
             = mkRequest VGet RSecrets ns None :: requests c
      else Secrets (snd (UpdateAuthorityCert cert pri ns c))
           = <[ns := mkSecret (SecretName s)
                       (<["pri.pem" := pri]>
                          (<["cert.pem" := cert]> (SecretData s)))]> (Secrets c)
           ∧ requests (snd (UpdateAuthorityCert cert pri ns c))
             = mkRequest VUpdate RSecrets ns None
               :: mkRequest VGet RSecrets ns None :: requests c
  end.
Proof.
  intros Hrel. kube_unfold. rewrite (Hrel (length (requests c))).
  destruct (Secrets c !! ns) as [s|] eqn:Hs; simpl.
  - destruct (_ && _) eqn:Hsame; simpl; [done|].
    rewrite (Hrel (S (length (requests c)))). by rewrite Hs.
  - rewrite (Hrel (S (length (requests c)))), Hs. simpl.
    by rewrite fresh_secret_matches.
Qed.

(** C5: [UpdateAuthorityCert] creates the secret record when it is absent;
    when the record exists with the same cert PEM and private-key PEM it
    writes nothing; otherwise it overwrites the record, stored with data as
    the records of this client are, with the new content.  The three cases
    are read off a store that answers every request; the second one holds
    whatever requests get lost. *)
Theorem UpdateAuthorityCert_spec (cert pri ns : string) (c : Cluster) :
  let c' := snd (UpdateAuthorityCert cert pri ns c) in
  (reliable c →
   match Secrets c !! ns with
   | None =>
       Secrets c' = <[ns := mkSecret "dubbo-ca-secret"
                              (<["pri.pem" := pri]> (<["cert.pem" := cert]> ∅))]> (Secrets c)
       ∧ requests c' = mkRequest VCreate RSecrets ns None
                       :: mkRequest VGet RSecrets ns (Some NotFound) :: requests c
   | Some s =>
       if String.eqb (index (SecretData s) "cert.pem") cert
          && String.eqb (index (SecretData s) "pri.pem") pri
       then Secrets c' = Secrets c
            ∧ requests c' = mkRequest VGet RSecrets ns None :: requests c
       else SecretData s ≠ ∅ →
            Secrets c' = <[ns := mkSecret (SecretName s)
                                   (<["pri.pem" := pri]>
                                      (<["cert.pem" := cert]> (SecretData s)))]> (Secrets c)
            ∧ requests c' = mkRequest VUpdate RSecrets ns None
                            :: mkRequest VGet RSecrets ns None :: requests c
   end)
  ∧ (∀ s, Secrets c !! ns = Some s →
          String.eqb (index (SecretData s) "cert.pem") cert
          && String.eqb (index (SecretData s) "pri.pem") pri = true →
          Secrets c' = Secrets c
          ∧ secretWrites (requests c') = secretWrites (requests c)).
Proof.
  simpl. split.
  - intros Hrel. pose proof (UpdateAuthorityCert_reliable cert pri ns c Hrel) as Hcase.
    destruct (Secrets c !! ns) as [s|]; [|exact Hcase].
    destruct (String.eqb (index (SecretData s) "cert.pem") cert
              && String.eqb (index (SecretData s) "pri.pem") pri); [exact Hcase|].
    intros _. exact Hcase.
  - intros s Hs Hsame. kube_unfold.
    destruct (outage c (length (requests c))) eqn:Hlost; simpl.
    + destruct (outage c (S (length (requests c)))); simpl;
        [|rewrite Hs; simpl]; by rewrite fresh_secret_matches.
    + rewrite Hs. simpl. by rewrite Hsame.
Qed.

Lemma UpdateAuthorityCert_spec_witness :
  reliable Scenario.mesh
  ∧ (Secrets (snd (UpdateAuthorityCert "PEM" "KEY" "mesh" Scenario.mesh))
     = <["mesh" := mkSecret "dubbo-ca-secret"
                     (<["pri.pem" := "KEY"]> (<["cert.pem" := "PEM"]> ∅))]>
         (Secrets Scenario.mesh)
     ∧ requests (snd (UpdateAuthorityCert "PEM" "KEY" "mesh" Scenario.mesh))
       = [mkRequest VCreate RSecrets "mesh" None;
          mkRequest VGet RSecrets "mesh" (Some NotFound)])
  ∧ (Secrets (snd (UpdateAuthorityCert "CA-LOADED" "KEY-IIIIIII" "mesh" Scenario.stored))
     = Secrets Scenario.stored
     ∧ secretWrites (requests (snd (UpdateAuthorityCert "CA-LOADED" "KEY-IIIIIII" "mesh"
                                      Scenario.stored)))
       = secretWrites (requests Scenario.stored))
  ∧ reliable Scenario.stored
  ∧ <["pri.pem" := "KEY-IIIIIII"]> (<["cert.pem" := "CA-LOADED"]> ∅)
    ≠ (∅ : gmap string string)
  ∧ (Secrets (snd (UpdateAuthorityCert "PEM" "KEY" "mesh" Scenario.stored))
     = <["mesh" := mkSecret "dubbo-ca-secret"
                     (<["pri.pem" := "KEY"]>
                        (<["cert.pem" := "PEM"]>
                           (<["pri.pem" := "KEY-IIIIIII"]>
                              (<["cert.pem" := "CA-LOADED"]> ∅))))]>
         (Secrets Scenario.stored)
     ∧ requests (snd (UpdateAuthorityCert "PEM" "KEY" "mesh" Scenario.stored))
       = [mkRequest VUpdate RSecrets "mesh" None;
          mkRequest VGet RSecrets "mesh" None]).
Proof.
  assert (Hdata : <["pri.pem" := "KEY-IIIIIII"]> (<["cert.pem" := "CA-LOADED"]> ∅)
                  ≠ (∅ : gmap string string)) by apply insert_non_empty.
  split; [intros i; reflexivity|]. split; [|split; [|split; [|split]]].
  - exact (proj1 (UpdateAuthorityCert_spec "PEM" "KEY" "mesh" Scenario.mesh)
             (fun _ => eq_refl)).
  - exact (proj2 (UpdateAuthorityCert_spec "CA-LOADED" "KEY-IIIIIII" "mesh" Scenario.stored)
             (mkSecret "dubbo-ca-secret"
                (<["pri.pem" := "KEY-IIIIIII"]> (<["cert.pem" := "CA-LOADED"]> ∅)))
             eq_refl eq_refl).
  - intros i; reflexivity.
  - exact Hdata.
  - exact (proj1 (UpdateAuthorityCert_spec "PEM" "KEY" "mesh" Scenario.stored)
             (fun _ => eq_refl) Hdata).
Defined.

(** *** The loop body of [UpdateAuthorityPublicKey], case by case *)

Lemma broadcastTo_outcome (cert n : string) (c : Cluster) :
  broadcast_outcome cert n c (fst (broadcastTo cert n c)) (snd (broadcastTo cert n c)).
Proof.
  kube_unfold.
  destruct (outage c (length (requests c))) eqn:Hget; simpl.
  - destruct (outage c (S (length (requests c)))) eqn:Hcreate; simpl.
    + apply (outcome_create_failed cert n c Unavailable Unavailable).
    + destruct (ConfigMaps c !! n) as [cm|] eqn:Hcm; simpl.
      * apply (outcome_create_failed cert n c Unavailable AlreadyExists).
      * rewrite index_insert, String.eqb_refl. simpl.
        by apply (outcome_create cert n c Unavailable).
  - destruct (ConfigMaps c !! n) as [cm|] eqn:Hcm; simpl.
    + destruct (String.eqb_spec (index (ConfigMapData cm) "ca.crt") cert) as [Heq|Hne]; simpl.
      * by apply (outcome_skip cert n c cm).
      * destruct (outage c (S (length (requests c)))) eqn:Hupd; simpl.
        -- by apply (outcome_update_failed cert n c cm Unavailable).
        -- rewrite Hcm. simpl. by apply (outcome_update cert n c cm).
    + destruct (outage c (S (length (requests c)))) eqn:Hcreate; simpl.
      * apply (outcome_create_failed cert n c NotFound Unavailable).
      * rewrite Hcm. simpl. rewrite index_insert, String.eqb_refl. simpl.
        by apply (outcome_create cert n c NotFound).
Qed.

Lemma eqb_ne (a b : string) : a ≠ b → String.eqb a b = false.
Proof. intros H. by apply String.eqb_neq. Qed.

(** A namespace's turn leaves the trust records of the others alone and
    sends nothing on their behalf. *)
Lemma broadcastTo_frame (cert m n : string) (c : Cluster) :
  m ≠ n →
  ConfigMaps (snd (broadcastTo cert m c)) !! n = ConfigMaps c !! n
  ∧ trustCalls n (requests (snd (broadcastTo cert m c))) = trustCalls n (requests c).
Proof.
  intros Hmn.
  destruct (broadcastTo_outcome cert m c); simpl;
    rewrite ?lookup_insert_ne by done;
    unfold trustCalls, onConfigMap; simpl; rewrite (eqb_ne m n Hmn); done.
Qed.

(** Idempotent skip: a record that already carries [cert] is not written
    and no update is asked for it. *)
Lemma broadcastTo_trusted (cert n : string) (c : Cluster) :
  trusts cert n c →
  ConfigMaps (snd (broadcastTo cert n c)) = ConfigMaps c
  ∧ trustWrites n (requests (snd (broadcastTo cert n c))) = trustWrites n (requests c)
  ∧ trustUpdateCalls n (requests (snd (broadcastTo cert n c)))
    = trustUpdateCalls n (requests c).
Proof.
  intros (cm & Hcm & Hpem).
  destruct (broadcastTo_outcome cert n c) as [cm' H1 H2|e H1|cm' H1 H2|e e'|cm' e H1 H2];
    simpl; simplify_eq;
    unfold trustWrites, trustUpdateCalls, trustCalls, onConfigMap; simpl;
    rewrite ?String.eqb_refl; simpl; done.
Qed.

(** At most one write per turn, and a write leaves [cert] in the record. *)
Lemma broadcastTo_once (cert n : string) (c : Cluster) :
  (trustWrites n (requests (snd (broadcastTo cert n c))) = trustWrites n (requests c)
   ∨ (trustWrites n (requests (snd (broadcastTo cert n c)))
      = S (trustWrites n (requests c))
      ∧ trusts cert n (snd (broadcastTo cert n c))))
  ∧ (fst (broadcastTo cert n c) = true → trusts cert n (snd (broadcastTo cert n c))).
Proof.
  destruct (broadcastTo_outcome cert n c) as [cm' H1 H2|e H1|cm' H1 H2|e e'|cm' e H1 H2];
    simpl; unfold trustWrites, trustCalls, onConfigMap, trusts; simpl;
    rewrite ?String.eqb_refl; simpl.
  - split; [by left|]. intros _. by exists cm'.
  - assert (Ht : ∃ cm, <[n := mkConfigMap "dubbo-ca-cert" (<["ca.crt" := cert]> ∅)]>
                         (ConfigMaps c) !! n = Some cm
                       ∧ index (ConfigMapData cm) "ca.crt" = cert).
    { eexists. rewrite lookup_insert_eq. split; [done|]. simpl. apply index_insert. }
    split; [by right|done].
  - assert (Ht : ∃ cm, <[n := mkConfigMap (ConfigMapName cm')
                                 (<["ca.crt" := cert]> (ConfigMapData cm'))]>
                         (ConfigMaps c) !! n = Some cm
                       ∧ index (ConfigMapData cm) "ca.crt" = cert).
    { eexists. rewrite lookup_insert_eq. split; [done|]. simpl. apply index_insert. }
    split; [by right|done].
  - split; [by left|done].
  - split; [by left|done].
Qed.

(** *** The whole iteration *)

Lemma rangeItems_cons (cert m : string) (rest : list string) (c : Cluster) :
  rangeItems cert (m :: rest) c =
  if String.eqb m "kube-system" then rangeItems cert rest c
  else if fst (broadcastTo cert m c)
       then rangeItems cert rest (snd (broadcastTo cert m c))
       else (false, snd (broadcastTo cert m c)).
Proof.
  simpl. destruct (String.eqb m "kube-system"); [done|].
  unfold bind. destruct (broadcastTo cert m c) as [[] c1]; done.
Qed.

Lemma trusts_lookup (cert n : string) (c c' : Cluster) :
  ConfigMaps c' !! n = ConfigMaps c !! n → trusts cert n c → trusts cert n c'.
Proof. intros Heq (cm & Hcm & Hpem). exists cm. by rewrite Heq. Qed.

Lemma rangeItems_frame (cert n : string) (items : list string) (c : Cluster) :
  n ∉ items →
  ConfigMaps (snd (rangeItems cert items c)) !! n = ConfigMaps c !! n
  ∧ trustCalls n (requests (snd (rangeItems cert items c))) = trustCalls n (requests c).
Proof.
  revert c. induction items as [|m rest IH]; intros c Hn; [done|].
  apply not_elem_of_cons in Hn as [Hne Hn].
  rewrite rangeItems_cons.
  destruct (String.eqb m "kube-system"); [by apply IH|].
  destruct (broadcastTo_frame cert m n c) as [Hl Hc]; [done|].
  destruct (fst (broadcastTo cert m c)); simpl; [|done].
  destruct (IH (snd (broadcastTo cert m c)) Hn) as [Hl' Hc'].
  by rewrite Hl', Hc'.
Qed.

Lemma rangeItems_trusted (cert n : string) (items : list string) (c : Cluster) :
  trusts cert n c →
  ConfigMaps (snd (rangeItems cert items c)) !! n = ConfigMaps c !! n
  ∧ trustWrites n (requests (snd (rangeItems cert items c))) = trustWrites n (requests c)
  ∧ trustUpdateCalls n (requests (snd (rangeItems cert items c)))
    = trustUpdateCalls n (requests c).
Proof.
  revert c. induction items as [|m rest IH]; intros c Ht; [done|].
  rewrite rangeItems_cons.
  destruct (String.eqb m "kube-system"); [by apply IH|].
  assert (Hturn : ConfigMaps (snd (broadcastTo cert m c)) !! n = ConfigMaps c !! n
          ∧ trustWrites n (requests (snd (broadcastTo cert m c))) = trustWrites n (requests c)
          ∧ trustUpdateCalls n (requests (snd (broadcastTo cert m c)))
            = trustUpdateCalls n (requests c)).
  { destruct (decide (m = n)) as [->|Hne].
    - destruct (broadcastTo_trusted cert n c Ht) as (-> & ? & ?). done.
    - destruct (broadcastTo_frame cert m n c Hne) as [? Hc].
      unfold trustWrites, trustUpdateCalls. by rewrite Hc. }
  destruct Hturn as (Hl & Hw & Hu).
  destruct (fst (broadcastTo cert m c)); simpl; [|done].
  destruct (IH (snd (broadcastTo cert m c))) as (Hl' & Hw' & Hu').
  { by apply (trusts_lookup cert n c). }
  by rewrite Hl', Hw', Hu'.
Qed.

Lemma rangeItems_once (cert n : string) (items : list string) (c : Cluster) :
  trustWrites n (requests (snd (rangeItems cert items c))) = trustWrites n (requests c)
  ∨ (trustWrites n (requests (snd (rangeItems cert items c)))
     = S (trustWrites n (requests c))
     ∧ trusts cert n (snd (rangeItems cert items c))).
Proof.
  revert c. induction items as [|m rest IH]; intros c; [by left|].
  rewrite rangeItems_cons.
  destruct (String.eqb m "kube-system"); [by apply IH|].
  destruct (decide (m = n)) as [->|Hne].
  - destruct (broadcastTo_once cert n c) as [[Hsame|[Hone Ht]] _].
    + destruct (fst (broadcastTo cert n c)); simpl; [|by left].
      rewrite <- Hsame. apply IH.
    + destruct (fst (broadcastTo cert n c)); simpl; [|by right].
      destruct (rangeItems_trusted cert n rest _ Ht) as (Hl & Hw & _).
      right. rewrite Hw. split; [done|]. by apply (trusts_lookup _ _ _ _ Hl).
  - destruct (broadcastTo_frame cert m n c Hne) as [Hl Hc].
    destruct (fst (broadcastTo cert m c)); simpl.
    + assert (Hw : trustWrites n (requests (snd (broadcastTo cert m c)))
                   = trustWrites n (requests c)).
      { unfold trustWrites. by rewrite Hc. }
      rewrite <- Hw. apply IH.
    + left. unfold trustWrites. by rewrite Hc.
Qed.

(** A completed iteration leaves [cert] in the record of every namespace
    it went through. *)
Lemma rangeItems_true (cert n : string) (items : list string) (c : Cluster) :
  fst (rangeItems cert items c) = true →
  n ∈ items → n ≠ "kube-system" →
  trusts cert n (snd (rangeItems cert items c)).
Proof.
  revert c. induction items as [|m rest IH]; intros c Hok Hin Hsys.
  { by apply elem_of_nil in Hin. }
  rewrite rangeItems_cons in *.
  destruct (String.eqb_spec m "kube-system") as [->|Hm].
  { apply elem_of_cons in Hin as [?|Hin]; [done|]. by apply IH. }
  destruct (fst (broadcastTo cert m c)) eqn:Hb; simpl in *; [|done].
  destruct (decide (m = n)) as [->|Hne].
  - destruct (broadcastTo_once cert n c) as [_ Ht]. specialize (Ht Hb).
    destruct (rangeItems_trusted cert n rest _ Ht) as (Hl & _).
    by apply (trusts_lookup _ _ _ _ Hl).
  - apply elem_of_cons in Hin as [?|Hin]; [done|]. by apply IH.
Qed.

(** *** [UpdateAuthorityPublicKey] *)

Lemma UpdateAuthorityPublicKey_unfold (cert : string) (c : Cluster) :
  UpdateAuthorityPublicKey cert c =
  if lost c then (false, logged VList RNamespaces "" (Some Unavailable) c)
  else rangeItems cert (Namespaces c) (logged VList RNamespaces "" None c).
Proof.
  unfold UpdateAuthorityPublicKey, bind, NamespacesList.
  by destruct (lost c).
Qed.

Lemma UpdateAuthorityPublicKey_trusted (cert n : string) (c : Cluster) :
  trusts cert n c →
  ConfigMaps (snd (UpdateAuthorityPublicKey cert c)) !! n = ConfigMaps c !! n
  ∧ trustWrites n (requests (snd (UpdateAuthorityPublicKey cert c)))
    = trustWrites n (requests c)
  ∧ trustUpdateCalls n (requests (snd (UpdateAuthorityPublicKey cert c)))
    = trustUpdateCalls n (requests c).
Proof.
  intros Ht. rewrite UpdateAuthorityPublicKey_unfold.
  destruct (lost c); [done|].
  by apply (rangeItems_trusted cert n (Namespaces c)
              (logged VList RNamespaces "" None c)).
Qed.

Lemma UpdateAuthorityPublicKey_once (cert n : string) (c : Cluster) :
  trustWrites n (requests (snd (UpdateAuthorityPublicKey cert c)))
  = trustWrites n (requests c)
  ∨ (trustWrites n (requests (snd (UpdateAuthorityPublicKey cert c)))
     = S (trustWrites n (requests c))
     ∧ trusts cert n (snd (UpdateAuthorityPublicKey cert c))).
Proof.
  rewrite UpdateAuthorityPublicKey_unfold.
  destruct (lost c); [by left|].
  apply (rangeItems_once cert n (Namespaces c) (logged VList RNamespaces "" None c)).
Qed.

Lemma UpdateAuthorityPublicKey_true (cert n : string) (c : Cluster) :
  fst (UpdateAuthorityPublicKey cert c) = true →
  n ∈ Namespaces c → n ≠ "kube-system" →
  trusts cert n (snd (UpdateAuthorityPublicKey cert c)).
Proof.
  rewrite UpdateAuthorityPublicKey_unfold.
  destruct (lost c); [done|].
  apply (rangeItems_true cert n (Namespaces c) (logged VList RNamespaces "" None c)).
Qed.

(** C4: broadcasting the same cert PEM twice writes the trust record of a
    namespace at most once; when the record already carries that PEM a
    broadcast issues no update call for it and leaves it as it is, and so
    does the second broadcast whenever the first one wrote the record or
    went through the namespace successfully.  This holds for every
    namespace, every cluster and whatever requests get lost. *)
Theorem UpdateAuthorityPublicKey_idempotent (cert n : string) (c : Cluster) :
  let c1 := snd (UpdateAuthorityPublicKey cert c) in
  let c2 := snd (UpdateAuthorityPublicKey cert c1) in
  (trustWrites n (requests c2) ≤ S (trustWrites n (requests c)))%nat
  ∧ (trusts cert n c →
     trustUpdateCalls n (requests c1) = trustUpdateCalls n (requests c)
     ∧ trustWrites n (requests c1) = trustWrites n (requests c)
     ∧ ConfigMaps c1 !! n = ConfigMaps c !! n)
  ∧ (trustWrites n (requests c1) ≠ trustWrites n (requests c)
     ∨ (fst (UpdateAuthorityPublicKey cert c) = true
        ∧ n ∈ Namespaces c ∧ n ≠ "kube-system") →
     trustUpdateCalls n (requests c2) = trustUpdateCalls n (requests c1)
     ∧ trustWrites n (requests c2) = trustWrites n (requests c1)
     ∧ ConfigMaps c2 !! n = ConfigMaps c1 !! n).
Proof.
  simpl. split; [|split].
  - destruct (UpdateAuthorityPublicKey_once cert n c) as [Hsame|[Hone Ht]].
    + destruct (UpdateAuthorityPublicKey_once cert n
                  (snd (UpdateAuthorityPublicKey cert c))) as [H2|[H2 _]]; lia.
    + destruct (UpdateAuthorityPublicKey_trusted cert n _ Ht) as (_ & Hw & _). lia.
  - intros Ht.
    destruct (UpdateAuthorityPublicKey_trusted cert n c Ht) as (? & ? & ?). done.
  - intros Hfirst.
    assert (Ht : trusts cert n (snd (UpdateAuthorityPublicKey cert c))).
    { destruct Hfirst as [Hw|(Hok & Hin & Hsys)].
      - by destruct (UpdateAuthorityPublicKey_once cert n c) as [?|[_ ?]].
      - by apply UpdateAuthorityPublicKey_true. }
    destruct (UpdateAuthorityPublicKey_trusted cert n _ Ht) as (? & ? & ?). done.
Qed.

Lemma UpdateAuthorityPublicKey_idempotent_witness :
  trusts "NEW" "beta" Scenario.settled
  ∧ trustUpdateCalls "beta"
      (requests (snd (UpdateAuthorityPublicKey "NEW" Scenario.settled))) = 0%nat
  ∧ (fst (UpdateAuthorityPublicKey "NEW" Scenario.mesh) = true
     ∧ trustWrites "apps"
         (requests (snd (UpdateAuthorityPublicKey "NEW"
                           (snd (UpdateAuthorityPublicKey "NEW" Scenario.mesh)))))
       = 1%nat).
Proof.
  assert (Ht : trusts "NEW" "beta" Scenario.settled).
  { eexists. split; reflexivity. }
  split; [exact Ht|]. split.
  - exact (proj1 (proj1 (proj2 (UpdateAuthorityPublicKey_idempotent
                                  "NEW" "beta" Scenario.settled)) Ht)).
  - split; [reflexivity|].
    refine (eq_trans
              (proj1 (proj2 (proj2 (proj2 (UpdateAuthorityPublicKey_idempotent
                                             "NEW" "apps" Scenario.mesh))
                               (or_intror (conj eq_refl (conj _ _)))))) _).
    + apply list_elem_of_In. simpl. tauto.
    + discriminate.
    + reflexivity.
Defined.

(** *** Failures *)

Lemma verdict_app (b : bool) (new old : list Request) :
  Forall (fun r => failed r = false) old →
  verdict b new → verdict b (new ++ old).
Proof.
  intros Hold. destruct b; simpl.
  - intros Hnew. by apply Forall_app.
  - intros (q & rest & -> & Hq & Hrest).
    exists q, (rest ++ old). split; [done|]. split; [done|]. by apply Forall_app.
Qed.

Lemma broadcastTo_log (cert n : string) (c : Cluster) :
  ∃ new, requests (snd (broadcastTo cert n c)) = new ++ requests c
         ∧ verdict (fst (broadcastTo cert n c)) new.
Proof.
  destruct (broadcastTo_outcome cert n c); cbn [requests answered];
    (eexists; split; [reflexivity|]); simpl;
    try (repeat constructor; done);
    by (eexists _, _; split; [reflexivity|]; split; [done|]; repeat constructor).
Qed.

Lemma rangeItems_log (cert : string) (items : list string) (c : Cluster) :
  ∃ new, requests (snd (rangeItems cert items c)) = new ++ requests c
         ∧ verdict (fst (rangeItems cert items c)) new.
Proof.
  revert c. induction items as [|m rest IH]; intros c.
  { exists []. split; [done|]. constructor. }
  rewrite rangeItems_cons.
  destruct (String.eqb m "kube-system"); [by apply IH|].
  destruct (broadcastTo_log cert m c) as (new1 & Hlog1 & Hv1).
  destruct (fst (broadcastTo cert m c)); simpl; [|by exists new1].
  destruct (IH (snd (broadcastTo cert m c))) as (new2 & Hlog2 & Hv2).
  exists (new2 ++ new1). rewrite Hlog2, Hlog1, app_assoc. split; [done|].
  by apply verdict_app.
Qed.

(** The iteration ends at the first namespace whose turn fails: the cluster
    it leaves is the one of that failure, whatever namespaces follow. *)
Lemma rangeItems_stop (cert n : string) (pre post : list string) (c c1 c2 : Cluster) :
  rangeItems cert pre c = (true, c1) →
  n ≠ "kube-system" →
  broadcastTo cert n c1 = (false, c2) →
  rangeItems cert (pre ++ n :: post) c = (false, c2).
Proof.
  revert c. induction pre as [|m rest IH]; intros c Hpre Hn Hfail.
  - simpl in Hpre. unfold ret in Hpre. simplify_eq.
    rewrite app_nil_l, rangeItems_cons, (eqb_ne _ _ Hn), Hfail. done.
  - rewrite <- app_comm_cons, rangeItems_cons. rewrite rangeItems_cons in Hpre.
    destruct (String.eqb m "kube-system"); [by apply IH|].
    destruct (fst (broadcastTo cert m c)); [by apply IH|done].
Qed.

(** C2, as the code has it: [UpdateAuthorityPublicKey] returns [false] as
    soon as listing the namespaces, creating or updating one trust record
    fails -- the failed request is the last one it sends, nothing is sent for
    the namespaces that follow in the iteration and their records stay as
    they are -- and it returns [true] only when none of these requests
    failed.  A failed [Get] alone is recovered from by creating the
    record. *)
Theorem UpdateAuthorityPublicKey_fail_fast (cert : string) (c : Cluster) :
  (∃ new, requests (snd (UpdateAuthorityPublicKey cert c)) = new ++ requests c
          ∧ verdict (fst (UpdateAuthorityPublicKey cert c)) new)
  ∧ (∀ pre n post c1 c2,
       lost c = false →
       Namespaces c = pre ++ n :: post →
       n ≠ "kube-system" →
       rangeItems cert pre (logged VList RNamespaces "" None c) = (true, c1) →
       broadcastTo cert n c1 = (false, c2) →
       UpdateAuthorityPublicKey cert c = (false, c2)
       ∧ ∀ m, m ∉ pre → m ≠ n →
              trustCalls m (requests c2) = trustCalls m (requests c)
              ∧ ConfigMaps c2 !! m = ConfigMaps c !! m).
Proof.
  split.
  - rewrite UpdateAuthorityPublicKey_unfold. destruct (lost c); simpl.
    + exists [mkRequest VList RNamespaces "" (Some Unavailable)].
      split; [done|]. eexists _, _. split; [reflexivity|]. split; [done|]. constructor.
    + destruct (rangeItems_log cert (Namespaces c)
                  (logged VList RNamespaces "" None c)) as (new & Hlog & Hv).
      exists (new ++ [mkRequest VList RNamespaces "" None]).
      rewrite Hlog. simpl. rewrite <- app_assoc. split; [done|].
      apply verdict_app; [|done]. by repeat constructor.
  - intros pre n post c1 c2 Hlist Hns Hn Hpre Hfail.
    split.
    + rewrite UpdateAuthorityPublicKey_unfold, Hlist, Hns.
      by apply (rangeItems_stop cert n pre post _ c1 c2).
    + intros m Hm Hmn.
      destruct (rangeItems_frame cert m pre
                  (logged VList RNamespaces "" None c) Hm) as [Hl Hc].
      rewrite Hpre in Hl, Hc. simpl in Hl, Hc.
      destruct (broadcastTo_frame cert n m c1) as [Hl' Hc']; [done|].
      rewrite Hfail in Hl', Hc'. simpl in Hl', Hc'.
      by rewrite Hc', Hl', Hc, Hl.
Qed.

Lemma UpdateAuthorityPublicKey_fail_fast_witness :
  lost Scenario.flaky = false
  ∧ UpdateAuthorityPublicKey "NEW" Scenario.flaky
    = (false, snd (broadcastTo "NEW" "alpha"
                     (logged VList RNamespaces "" None Scenario.flaky)))
  ∧ trustCalls "beta" (requests (snd (UpdateAuthorityPublicKey "NEW" Scenario.flaky)))
    = [].
Proof.
  split; [reflexivity|].
  destruct (proj2 (UpdateAuthorityPublicKey_fail_fast "NEW" Scenario.flaky)
              [] "alpha" ["beta"]
              (logged VList RNamespaces "" None Scenario.flaky)
              (snd (broadcastTo "NEW" "alpha"
                      (logged VList RNamespaces "" None Scenario.flaky))))
    as [Hresult Hothers].
  - reflexivity.
  - reflexivity.
  - discriminate.
  - reflexivity.
  - reflexivity.
  - split; [exact Hresult|].
    rewrite Hresult. simpl snd.
    refine (eq_trans (proj1 (Hothers "beta" _ _)) eq_refl).
    + apply not_elem_of_nil.
    + discriminate.
Defined.

(** C2, as the claim words it: after a failed update for one namespace the
    namespaces that remain would still be attempted.  On [Scenario.flaky] the
    update of [alpha] is lost, the call returns [false], and no request at
    all has been sent for [beta], which comes after it. *)
Lemma remaining_namespaces_not_attempted :
  ¬ (∀ (cert : string) (c : Cluster) (pre post : list string) (n m : string)
       (c1 c2 : Cluster),
       lost c = false →
       Namespaces c = pre ++ n :: post →
       n ≠ "kube-system" →
       rangeItems cert pre (logged VList RNamespaces "" None c) = (true, c1) →
       broadcastTo cert n c1 = (false, c2) →
       m ∈ post → m ≠ "kube-system" →
       trustCalls m (requests (snd (UpdateAuthorityPublicKey cert c)))
       ≠ trustCalls m (requests c)).
Proof.
  intros Hclaim.
  apply (Hclaim "NEW" Scenario.flaky [] ["beta"] "alpha" "beta"
           (logged VList RNamespaces "" None Scenario.flaky)
           (snd (broadcastTo "NEW" "alpha"
                   (logged VList RNamespaces "" None Scenario.flaky))));
    try reflexivity; try discriminate.
  apply list_elem_of_In. simpl. tauto.
Qed.

(* ===================================================================== *)
(** ** Properties of the server                                           *)
(* ===================================================================== *)

(** *** The broadcast never touches the secret *)

Lemma answered_answered (new1 new2 : list Request) (t1 t2 : gmap string ConfigMap)
    (c : Cluster) :
  answered new2 t2 (answered new1 t1 c) = answered (new2 ++ new1) t2 c.
Proof. unfold answered. simpl. by rewrite app_assoc. Qed.

Lemma secretCalls_app (new log : list Request) :
  secretCalls (new ++ log) = secretCalls new ++ secretCalls log.
Proof. apply List.filter_app. Qed.

Lemma secretWrites_calls (log : list Request) :
  secretWrites log = List.filter isWrite (secretCalls log).
Proof.
  unfold secretWrites, secretCalls.
  induction log as [|r log IH]; [done|]. simpl.
  destruct (bool_decide (resource r = RSecrets)); simpl; [|done].
  destruct (isWrite r); by rewrite IH.
Qed.

Lemma broadcastTo_answered (cert n : string) (c : Cluster) :
  ∃ new table, snd (broadcastTo cert n c) = answered new table c
               ∧ secretCalls new = [].
Proof. destruct (broadcastTo_outcome cert n c); by eexists _, _. Qed.

Lemma rangeItems_answered (cert : string) (items : list string) (c : Cluster) :
  ∃ new table, snd (rangeItems cert items c) = answered new table c
               ∧ secretCalls new = [].
Proof.
  revert c. induction items as [|m rest IH]; intros c.
  { exists [], (ConfigMaps c). by destruct c. }
  rewrite rangeItems_cons.
  destruct (String.eqb m "kube-system"); [by apply IH|].
  destruct (broadcastTo_answered cert m c) as (new1 & t1 & Hc1 & Hs1).
  destruct (fst (broadcastTo cert m c)); simpl; [|by exists new1, t1].
  destruct (IH (snd (broadcastTo cert m c))) as (new2 & t2 & Hc2 & Hs2).
  exists (new2 ++ new1), t2. rewrite Hc2, Hc1, answered_answered.
  by rewrite secretCalls_app, Hs1, Hs2.
Qed.

Lemma UpdateAuthorityPublicKey_answered (cert : string) (c : Cluster) :
  ∃ new table, snd (UpdateAuthorityPublicKey cert c) = answered new table c
               ∧ secretCalls new = [].
Proof.
  rewrite UpdateAuthorityPublicKey_unfold. destruct (lost c).
  - by exists [mkRequest VList RNamespaces "" (Some Unavailable)], (ConfigMaps c).
  - destruct (rangeItems_answered cert (Namespaces c)
                (logged VList RNamespaces "" None c)) as (new & t & Hc & Hs).
    exists (new ++ [mkRequest VList RNamespaces "" None]), t.
    rewrite Hc. unfold answered, logged. simpl. rewrite <- app_assoc.
    by rewrite secretCalls_app, Hs.
Qed.

Lemma UpdateAuthorityPublicKey_secrets (cert : string) (c : Cluster) :
  Secrets (snd (UpdateAuthorityPublicKey cert c)) = Secrets c
  ∧ secretCalls (requests (snd (UpdateAuthorityPublicKey cert c)))
    = secretCalls (requests c).
Proof.
  destruct (UpdateAuthorityPublicKey_answered cert c) as (new & t & -> & Hs).
  simpl. by rewrite secretCalls_app, Hs.
Qed.

(** On a cluster that answers every request the secret record carries the
    content handed to [UpdateAuthorityCert] afterwards. *)
Lemma UpdateAuthorityCert_stored (cert pri ns : string) (c : Cluster) :
  reliable c →
  ∃ s, Secrets (snd (UpdateAuthorityCert cert pri ns c)) !! ns = Some s
       ∧ index (SecretData s) "cert.pem" = cert
       ∧ index (SecretData s) "pri.pem" = pri.
Proof.
  intros Hrel. pose proof (UpdateAuthorityCert_reliable cert pri ns c Hrel) as H.
  destruct (Secrets c !! ns) as [s|] eqn:Hs.
  - destruct (_ && _) eqn:Hsame.
    + destruct H as [-> _]. exists s. apply andb_prop in Hsame as [H1 H2].
      apply String.eqb_eq in H1, H2. done.
    + destruct H as [-> _]. eexists. rewrite lookup_insert_eq. split; [done|]. simpl.
      rewrite index_insert_ne, !index_insert by done. done.
  - destruct H as [-> _]. eexists. rewrite lookup_insert_eq. split; [done|]. simpl.
    rewrite index_insert_ne, !index_insert by done. done.
Qed.

(** *** Bootstrap *)

Ltac server_unfold :=
  unfold RefreshAuthorityCert, refreshCheck, sleep, publish, persist, generate,
    drawn, notify, withAuthorityCert, withTrustedCert, withKubeClient, withStopChan,
    withNow, withStorage in *; simpl in *.

(** Bootstrap with a valid cert in memory: nothing is asked of the secret. *)
Lemma RefreshAuthorityCert_valid {X509 Key : Type}
    (crypto : CryptoProvider X509 Key) (s : Server X509 Key) :
  IsValid crypto (Now s) (AuthorityCert (CertStorage s)) = true →
  AuthorityCert (CertStorage (RefreshAuthorityCert crypto s))
  = AuthorityCert (CertStorage s)
  ∧ Secrets (KubeClient (RefreshAuthorityCert crypto s)) = Secrets (KubeClient s)
  ∧ secretCalls (requests (KubeClient (RefreshAuthorityCert crypto s)))
    = secretCalls (requests (KubeClient s)).
Proof.
  intros Hvalid. unfold RefreshAuthorityCert. rewrite Hvalid. server_unfold.
  destruct (UpdateAuthorityPublicKey_secrets
              (CertPem (AuthorityCert (CertStorage s))) (KubeClient s)) as [-> ->].
  done.
Qed.

(** Bootstrap without one: generate, persist, broadcast. *)
Lemma RefreshAuthorityCert_invalid {X509 Key : Type}
    (crypto : CryptoProvider X509 Key) (s : Server X509 Key) :
  IsValid crypto (Now s) (AuthorityCert (CertStorage s)) = false →
  RefreshAuthorityCert crypto s
  = withTrustedCert
      (TrustedCert (CertStorage s)
       ++ [GenerateAuthorityCert crypto (Entropy s) (Now s)
             (RootCert (CertStorage s)) (CaValidity (Opts s))])
      (publish (persist crypto (generate crypto s))).
Proof. intros Hvalid. unfold RefreshAuthorityCert. by rewrite Hvalid. Qed.

(** C3: at bootstrap a valid in-memory authority cert is kept and the
    secret record is neither written nor asked for; otherwise the cert
    generated from [RootCert] and [CaValidity] is installed and handed to
    [UpdateAuthorityCert] for the configured namespace, which leaves it in
    the secret record of a cluster that answers its requests and whose
    secret, if it has one, carries data. *)
Theorem RefreshAuthorityCert_bootstrap {X509 Key : Type}
    (crypto : CryptoProvider X509 Key) (s : Server X509 Key) :
  let s' := RefreshAuthorityCert crypto s in
  let a := GenerateAuthorityCert crypto (Entropy s) (Now s)
             (RootCert (CertStorage s)) (CaValidity (Opts s)) in
  (IsValid crypto (Now s) (AuthorityCert (CertStorage s)) = true →
   AuthorityCert (CertStorage s') = AuthorityCert (CertStorage s)
   ∧ Secrets (KubeClient s') = Secrets (KubeClient s)
   ∧ secretCalls (requests (KubeClient s')) = secretCalls (requests (KubeClient s)))
  ∧ (IsValid crypto (Now s) (AuthorityCert (CertStorage s)) = false →
     AuthorityCert (CertStorage s') = a
     ∧ KubeClient s'
       = snd (UpdateAuthorityPublicKey (CertPem a)
                (snd (UpdateAuthorityCert (CertPem a) (EncodePri crypto (PrivateKey a))
                        (Namespace (Opts s)) (KubeClient s))))
     ∧ (reliable (KubeClient s) →
        secretCarriesData (Namespace (Opts s)) (KubeClient s) →
        ∃ sec, Secrets (KubeClient s') !! Namespace (Opts s) = Some sec
               ∧ index (SecretData sec) "cert.pem" = CertPem a
               ∧ index (SecretData sec) "pri.pem" = EncodePri crypto (PrivateKey a))).
Proof.
  cbv zeta. split; intros Hvalid; [by apply RefreshAuthorityCert_valid|].
  rewrite (RefreshAuthorityCert_invalid crypto s Hvalid).
  server_unfold. split; [done|]. split; [done|].
  intros Hrel _.
  destruct (UpdateAuthorityPublicKey_secrets
              (CertPem (GenerateAuthorityCert crypto (Entropy s) (Now s)
                          (RootCert (CertStorage s)) (CaValidity (Opts s))))
              (snd (UpdateAuthorityCert
                      (CertPem (GenerateAuthorityCert crypto (Entropy s) (Now s)
                                  (RootCert (CertStorage s)) (CaValidity (Opts s))))
                      (EncodePri crypto
                         (PrivateKey (GenerateAuthorityCert crypto (Entropy s) (Now s)
                                        (RootCert (CertStorage s)) (CaValidity (Opts s)))))
                      (Namespace (Opts s)) (KubeClient s)))) as [-> _].
  by apply UpdateAuthorityCert_stored.
Qed.

Lemma RefreshAuthorityCert_bootstrap_witness :
  let fresh := withKubeClient Scenario.stored Scenario.firstStart in
  IsValid Scenario.provider (Now Scenario.restarted)
    (AuthorityCert (CertStorage Scenario.restarted)) = true
  ∧ AuthorityCert (CertStorage (RefreshAuthorityCert Scenario.provider Scenario.restarted))
    = Scenario.loaded
  ∧ IsValid Scenario.provider (Now fresh) (AuthorityCert (CertStorage fresh)) = false
  ∧ reliable (KubeClient fresh)
  ∧ secretCarriesData "mesh" (KubeClient fresh)
  ∧ ∃ sec, Secrets (KubeClient (RefreshAuthorityCert Scenario.provider fresh))
             !! "mesh" = Some sec
           ∧ index (SecretData sec) "cert.pem" = "CA-"
           ∧ index (SecretData sec) "pri.pem" = "KEY-".
Proof.
  intros fresh.
  assert (Hdata : secretCarriesData "mesh" (KubeClient fresh)).
  { intros sec Hsec. injection Hsec as <-. apply insert_non_empty. }
  split; [reflexivity|]. split.
  - exact (proj1 (proj1 (RefreshAuthorityCert_bootstrap Scenario.provider
                           Scenario.restarted) eq_refl)).
  - split; [reflexivity|]. split; [intros i; reflexivity|]. split; [exact Hdata|].
    exact (proj2 (proj2 (proj2 (RefreshAuthorityCert_bootstrap Scenario.provider fresh)
                           eq_refl))
             (fun _ => eq_refl) Hdata).
Defined.

(** Bootstrap appends the authority cert it ends with to the trusted
    certs. *)
Lemma RefreshAuthorityCert_trusted {X509 Key : Type}
    (crypto : CryptoProvider X509 Key) (s : Server X509 Key) :
  TrustedCert (CertStorage (RefreshAuthorityCert crypto s))
  = TrustedCert (CertStorage s)
    ++ [AuthorityCert (CertStorage (RefreshAuthorityCert crypto s))].
Proof.
  unfold RefreshAuthorityCert.
  destruct (IsValid crypto (Now s) (AuthorityCert (CertStorage s))); by server_unfold.
Qed.

(** *** The scheduled loop *)

Section Loop.

Context {X509 Key : Type} (crypto : CryptoProvider X509 Key).

Lemma sleep_frame (i : Z) (s : Server X509 Key) :
  StopChan (sleep i s) = StopChan s
  ∧ CertStorage (sleep i s) = CertStorage s
  ∧ KubeClient (sleep i s) = KubeClient s.
Proof. done. Qed.

Lemma refreshCheck_frame (s : Server X509 Key) :
  StopChan (refreshCheck crypto s) = StopChan s
  ∧ TrustedCert (CertStorage (refreshCheck crypto s)) = TrustedCert (CertStorage s).
Proof.
  unfold refreshCheck.
  destruct (NeedRefresh crypto (Now s) (AuthorityCert (CertStorage s))); by server_unfold.
Qed.

Lemma notify_frame (sig : Signal) (s : Server X509 Key) :
  CertStorage (notify sig s) = CertStorage s
  ∧ KubeClient (notify sig s) = KubeClient s
  ∧ Now (notify sig s) = Now s.
Proof. unfold notify. by destruct (StopChan s). Qed.

(** The loop never appends to, nor removes from, the trusted certs. *)
Lemma step_TrustedCert (l l' : Loop X509 Key) (a : Label) :
  step crypto l a l' →
  TrustedCert (CertStorage (server l')) = TrustedCert (CertStorage (server l)).
Proof.
  intros Hstep. destruct Hstep; simpl; try done.
  - apply refreshCheck_frame.
  - by destruct (notify_frame sig s) as [-> _].
Qed.

Lemma steps_TrustedCert (l l' : Loop X509 Key) (tr : list Label) :
  steps crypto l tr l' →
  TrustedCert (CertStorage (server l')) = TrustedCert (CertStorage (server l)).
Proof.
  induction 1 as [|l1 a l2 tr l3 Hstep _ IH]; [done|].
  rewrite IH. by apply (step_TrustedCert l1 l2 a).
Qed.

(** A rotation installs the generated cert and leaves the trusted certs
    as they were. *)
Lemma refreshCheck_rotation (s : Server X509 Key) :
  NeedRefresh crypto (Now s) (AuthorityCert (CertStorage s)) = true →
  AuthorityCert (CertStorage (refreshCheck crypto s))
  = GenerateAuthorityCert crypto (Entropy s) (Now s)
      (RootCert (CertStorage s)) (CaValidity (Opts s))
  ∧ TrustedCert (CertStorage (refreshCheck crypto s)) = TrustedCert (CertStorage s).
Proof. intros Hneed. unfold refreshCheck. rewrite Hneed. by server_unfold. Qed.

(** From bootstrap on the trusted certs are those of before bootstrap
    followed by the bootstrap cert, wherever the loop stands: they never
    shrink, and they never grow either. *)
Lemma TrustedCert_after_bootstrap (s : Server X509 Key) (tr : list Label)
    (l : Loop X509 Key) :
  steps crypto (enter (RefreshAuthorityCert crypto s)) tr l →
  TrustedCert (CertStorage (server l))
  = TrustedCert (CertStorage s)
    ++ [AuthorityCert (CertStorage (RefreshAuthorityCert crypto s))].
Proof.
  intros Hrun. rewrite (steps_TrustedCert _ _ _ Hrun). simpl.
  apply RefreshAuthorityCert_trusted.
Qed.

(** With no secret stored, [LoadAuthorityCert] leaves the in-memory cert to
    bootstrap as it finds it. *)
Lemma LoadAuthorityCert_absent (s : Server X509 Key) :
  Secrets (KubeClient s) !! Namespace (Opts s) = None →
  LoadAuthorityCert crypto s
  = RefreshAuthorityCert crypto
      (withKubeClient (snd (GetAuthorityCert (Namespace (Opts s)) (KubeClient s))) s).
Proof.
  intros Habsent. unfold LoadAuthorityCert.
  assert (Hget : fst (GetAuthorityCert (Namespace (Opts s)) (KubeClient s)) = ("", "")).
  { kube_unfold. rewrite Habsent.
    by destruct (outage (KubeClient s) (length (requests (KubeClient s)))). }
  destruct (GetAuthorityCert (Namespace (Opts s)) (KubeClient s)) as [[certStr priStr] k].
  simpl in Hget. by simplify_eq.
Qed.

(** X18: with a secret stored that decodes to a valid cert, start-up reads
    the secret, installs the cert and writes no secret. *)
Lemma LoadAuthorityCert_stored (s : Server X509 Key) (sec : Secret) :
  lost (KubeClient s) = false →
  Secrets (KubeClient s) !! Namespace (Opts s) = Some sec →
  index (SecretData sec) "cert.pem" ≠ "" →
  index (SecretData sec) "pri.pem" ≠ "" →
  IsValid crypto (Now s)
    (mkCert (DecodeCert crypto (index (SecretData sec) "cert.pem"))
       (index (SecretData sec) "cert.pem")
       (DecodePrivateKey crypto (index (SecretData sec) "pri.pem"))) = true →
  AuthorityCert (CertStorage (LoadAuthorityCert crypto s))
  = mkCert (DecodeCert crypto (index (SecretData sec) "cert.pem"))
      (index (SecretData sec) "cert.pem")
      (DecodePrivateKey crypto (index (SecretData sec) "pri.pem"))
  ∧ Secrets (KubeClient (LoadAuthorityCert crypto s)) = Secrets (KubeClient s)
  ∧ secretWrites (requests (KubeClient (LoadAuthorityCert crypto s)))
    = secretWrites (requests (KubeClient s)).
Proof.
  intros Hup Hsec Hcert Hpri Hvalid. unfold LoadAuthorityCert.
  assert (Hget : GetAuthorityCert (Namespace (Opts s)) (KubeClient s)
                 = ((index (SecretData sec) "cert.pem", index (SecretData sec) "pri.pem"),
                    logged VGet RSecrets (Namespace (Opts s)) None (KubeClient s))).
  { unfold GetAuthorityCert, bind, ret, SecretsGet. by rewrite Hup, Hsec. }
  rewrite Hget, (eqb_ne _ _ Hcert), (eqb_ne _ _ Hpri). simpl andb. cbv iota.
  match goal with
  | |- context [RefreshAuthorityCert crypto ?t] =>
      destruct (RefreshAuthorityCert_valid crypto t) as (Ha & Hs & Hc)
  end; [exact Hvalid|].
  rewrite Ha, Hs. split; [done|]. split; [done|].
  by rewrite !secretWrites_calls, Hc.
Qed.

End Loop.

(** C10: an iteration of the scheduled loop in which [NeedRefresh] reports
    false sends no request to the cluster and leaves the cert storage, hence
    [AuthorityCert] and [TrustedCert], unchanged: after the sleep and the
    refresh check the server differs from the one before in its clock
    only. *)
Theorem quiet_iteration {X509 Key : Type} (crypto : CryptoProvider X509 Key)
    (i : Z) (s : Server X509 Key) :
  NeedRefresh crypto (Now (sleep i s)) (AuthorityCert (CertStorage s)) = false →
  iteration crypto i [] s = withNow (Now s + Z.max 0 (sleepNanos i)) s
  ∧ CertStorage (iteration crypto i [] s) = CertStorage s
  ∧ KubeClient (iteration crypto i [] s) = KubeClient s
  ∧ ∀ l, steps crypto (mkLoop AtSleep i s) [LSleep; LRefresh] l →
         l = mkLoop AtSelect i (withNow (Now s + Z.max 0 (sleepNanos i)) s).
Proof.
  intros Hquiet.
  assert (Hcheck : refreshCheck crypto (sleep i s) = sleep i s).
  { unfold refreshCheck. by rewrite (proj1 (proj2 (sleep_frame i s))), Hquiet. }
  unfold iteration. simpl. rewrite Hcheck. repeat split.
  intros l Hrun.
  inversion Hrun as [|l1 a l2 tr l3 Hs1 Hrest]; subst.
  inversion Hs1; subst.
  inversion Hrest as [|l1 a l2' tr l3 Hs2 Hend]; subst.
  inversion Hs2; subst. inversion Hend; subst.
  by rewrite Hcheck.
Qed.

Lemma quiet_iteration_witness :
  let s := RefreshAuthorityCert Scenario.provider Scenario.firstStart in
  NeedRefresh Scenario.provider (Now (sleep 5000 s)) (AuthorityCert (CertStorage s)) = false
  ∧ requests (KubeClient (iteration Scenario.provider 5000 [] s)) = requests (KubeClient s).
Proof.
  split; [reflexivity|].
  exact (f_equal requests
           (proj1 (proj2 (proj2 (quiet_iteration Scenario.provider 5000
                                   (RefreshAuthorityCert Scenario.provider
                                      Scenario.firstStart) eq_refl))))).
Defined.

(** C1, on the code: bootstrap leaves the authority cert among the trusted
    certs, and no step of the loop ever changes the trusted certs -- so they
    never shrink, but the cert a rotation installs is not appended to them.
    On [Scenario.restarted] (a valid cert close to expiry is kept at
    bootstrap) the first iteration of the loop rotates, and the authority
    cert is no longer a trusted cert. *)
Theorem rotation_leaves_authority_untrusted :
  let s1 := RefreshAuthorityCert Scenario.provider Scenario.restarted in
  AuthorityCert (CertStorage s1) ∈ TrustedCert (CertStorage s1)
  ∧ ∃ l, steps Scenario.provider (enter s1) [LSleep; LRefresh] l
         ∧ TrustedCert (CertStorage (server l)) = TrustedCert (CertStorage s1)
         ∧ AuthorityCert (CertStorage (server l)) ∉ TrustedCert (CertStorage (server l)).
Proof.
  intros s1. split.
  - unfold s1.
    rewrite (RefreshAuthorityCert_trusted Scenario.provider Scenario.restarted).
    apply elem_of_app. right. apply list_elem_of_singleton. reflexivity.
  - exists (mkLoop AtSelect (interval (CaValidity (Opts s1)))
              (refreshCheck Scenario.provider
                 (sleep (interval (CaValidity (Opts s1))) s1))).
    split; [|split].
    + eapply steps_cons; [apply step_sleep|].
      eapply steps_cons; [apply step_refresh|]. apply steps_nil.
    + reflexivity.
    + intros Hin. vm_compute in Hin.
      apply list_elem_of_singleton in Hin. discriminate Hin.
Qed.

(** *** Leaving the loop *)

Section Termination.

Context {X509 Key : Type} (crypto : CryptoProvider X509 Key).

Lemma steps_remaining (l l' : Loop X509 Key) (tr : list Label) :
  steps crypto l tr l' → point l' = Returned → remaining (point l) tr.
Proof.
  induction 1 as [l|l1 a l2 tr l3 Hstep _ IH]; intros Hret.
  - rewrite Hret. done.
  - specialize (IH Hret). destruct Hstep; simpl in *.
    + destruct IH as [->|[k ->]]; [by exists 0%nat|by exists (S k)].
    + destruct IH as [->|[k ->]]; [by left|right; by exists k].
    + rewrite IH. by left.
    + destruct IH as [k ->]. right. by exists k.
    + done.
Qed.

Lemma steps_no_signal (l l' : Loop X509 Key) (tr : list Label) :
  steps crypto l tr l' →
  Forall (fun a => isSignal a = false) tr →
  StopChan (server l) = [] → point l ≠ Returned →
  point l' ≠ Returned ∧ StopChan (server l') = [].
Proof.
  induction 1 as [l|l1 a l2 tr l3 Hstep _ IH]; intros Hquiet Hempty Hp; [done|].
  apply Forall_cons in Hquiet as [Ha Hquiet].
  apply IH; [done| |]; destruct Hstep; simpl in *; try done; try congruence.
  by rewrite (proj1 (refreshCheck_frame crypto s)).
Qed.

End Termination.

(** C8: the scheduled loop leaves exactly upon observing the stop signal.
    A step that makes it return is the [select] with a signal in [StopChan];
    [select] with a signal pending can do nothing but return, and with none
    it goes back to sleep.  A signal is looked for once per iteration, after
    the refresh check and never while asleep: whatever signals arrive and
    whenever, a run from the start of an iteration to the return is made of
    whole iterations, each one sleep, refresh check and select, so the last
    sleep and refresh check are completed even when the signal was there
    before the sleep began, in which case the return comes right after them.
    Without a signal the loop does not return. *)
Theorem ScheduleRefreshAuthorityCert_exit {X509 Key : Type}
    (crypto : CryptoProvider X509 Key) :
  (∀ (l l' : Loop X509 Key) a,
     step crypto l a l' → point l ≠ Returned → point l' = Returned →
     a = LReturn ∧ point l = AtSelect ∧ StopChan (server l) ≠ [])
  ∧ (∀ i (s : Server X509 Key) a l',
       step crypto (mkLoop AtSelect i s) a l' → isSignal a = false →
       if decide (StopChan s = []) then a = LContinue ∧ l' = mkLoop AtSleep i s
       else a = LReturn ∧ point l' = Returned)
  ∧ (∀ i (s : Server X509 Key) tr l',
       steps crypto (mkLoop AtSleep i s) tr l' → point l' = Returned →
       ∃ k, program tr = cycles k ++ [LSleep; LRefresh; LReturn])
  ∧ (∀ i (s : Server X509 Key),
       StopChan s ≠ [] →
       ∃ s', steps crypto (mkLoop AtSleep i s) [LSleep; LRefresh; LReturn]
               (mkLoop Returned i s'))
  ∧ (∀ i (s : Server X509 Key) tr l',
       steps crypto (mkLoop AtSleep i s) tr l' →
       StopChan s = [] → Forall (fun a => isSignal a = false) tr →
       point l' ≠ Returned).
Proof.
  split; [|split; [|split; [|split]]].
  - intros l l' a Hstep Hp Hret. destruct Hstep; simpl in *; try done.
    split; [done|]. split; [done|]. congruence.
  - intros i s a l' Hstep Ha. inversion Hstep; subst; simpl in *; try done.
    + destruct (decide (StopChan s = [])); [congruence|done].
    + destruct (decide (StopChan s = [])); [done|congruence].
  - intros i s tr l' Hrun Hret.
    apply (steps_remaining crypto _ _ _ Hrun Hret).
  - intros i s Hsig.
    destruct (StopChan s) as [|sig rest] eqn:Hch; [done|].
    exists (withStopChan rest (refreshCheck crypto (sleep i s))).
    eapply steps_cons; [apply step_sleep|].
    eapply steps_cons; [apply step_refresh|].
    eapply steps_cons; [|apply steps_nil].
    apply (step_return crypto i _ sig rest).
    by rewrite (proj1 (refreshCheck_frame crypto (sleep i s))).
  - intros i s tr l' Hrun Hempty Hquiet.
    by apply (steps_no_signal crypto _ _ _ Hrun Hquiet).
Qed.

Lemma ScheduleRefreshAuthorityCert_exit_witness :
  let quiet := Scenario.firstStart in
  let signalled := withStopChan [15%nat] Scenario.firstStart in
  StopChan signalled ≠ [] ∧ StopChan quiet = []
  ∧ (∃ s', steps Scenario.provider (mkLoop AtSleep 5000 signalled)
             [LSleep; LRefresh; LReturn] (mkLoop Returned 5000 s')
           ∧ ∃ k, program [LSleep; LRefresh; LReturn]
                  = cycles k ++ [LSleep; LRefresh; LReturn])
  ∧ (LReturn = LReturn ∧ AtSelect = AtSelect ∧ StopChan signalled ≠ [])
  ∧ (LContinue = LContinue
     ∧ mkLoop AtSleep 5000 quiet = mkLoop AtSleep 5000 quiet)
  ∧ point (mkLoop AtSelect 5000
             (refreshCheck Scenario.provider (sleep 5000 quiet))) ≠ Returned.
Proof.
  intros quiet signalled.
  destruct (ScheduleRefreshAuthorityCert_exit Scenario.provider)
    as (Hexit & Hselect & Hwhole & Hpending & Hnone).
  assert (Hsig : StopChan signalled ≠ []) by discriminate.
  assert (Hquiet : StopChan quiet = []) by reflexivity.
  split; [exact Hsig|]. split; [exact Hquiet|]. split; [|split; [|split]].
  - destruct (Hpending 5000 signalled Hsig) as [s' Hrun].
    exists s'. split; [exact Hrun|].
    exact (Hwhole 5000 signalled _ _ Hrun eq_refl).
  - refine (Hexit (mkLoop AtSelect 5000 signalled) _ LReturn
              (step_return Scenario.provider 5000 signalled 15%nat [] eq_refl) _ eq_refl).
    discriminate.
  - exact (Hselect 5000 quiet LContinue _
             (step_continue Scenario.provider 5000 quiet Hquiet) eq_refl).
  - refine (Hnone 5000 quiet [LSleep; LRefresh] _ _ Hquiet _).
    + eapply steps_cons; [apply step_sleep|].
      eapply steps_cons; [apply step_refresh|]. apply steps_nil.
    + repeat constructor.
Defined.

(** The loop as a function agrees: it returns in the first iteration during
    which a signal arrives, and not before. *)
Section Fuel.

Context {X509 Key : Type} (crypto : CryptoProvider X509 Key).

Lemma notify_pending (sig : Signal) (s : Server X509 Key) :
  StopChan s ≠ [] → StopChan (notify sig s) = StopChan s.
Proof. unfold notify. by destruct (StopChan s) eqn:Hch. Qed.

Lemma notify_all_pending (sigs : list Signal) (s : Server X509 Key) :
  StopChan s ≠ [] → StopChan (foldr notify s sigs) = StopChan s.
Proof.
  intros Hfull. induction sigs as [|a l IH]; simpl; [done|].
  rewrite notify_pending; [done|]. by rewrite IH.
Qed.

Lemma arrivals_pending (arrived : list Signal) (s : Server X509 Key) :
  StopChan s = [] →
  StopChan (foldr notify s (rev arrived)) = take 1 arrived.
Proof.
  intros Hempty. destruct arrived as [|sig rest]; [done|].
  simpl. rewrite foldr_app. simpl.
  assert (Hfirst : StopChan (notify sig s) = [sig]).
  { unfold notify. by rewrite Hempty. }
  rewrite notify_all_pending; [by rewrite Hfirst|]. by rewrite Hfirst.
Qed.

Lemma iteration_StopChan (i : Z) (arrived : list Signal) (s : Server X509 Key) :
  StopChan s = [] → StopChan (iteration crypto i arrived s) = take 1 arrived.
Proof.
  intros Hempty. unfold iteration.
  rewrite (proj1 (refreshCheck_frame crypto _)). by apply arrivals_pending.
Qed.

Lemma loop_returns (k fuel : nat) (i : Z) (arrivals : nat → list Signal) (j : nat)
    (s : Server X509 Key) :
  StopChan s = [] →
  (∀ m, (m < k)%nat → arrivals (j + m)%nat = []) →
  arrivals (j + k)%nat ≠ [] →
  (k < fuel)%nat →
  ∃ s', loop crypto fuel i arrivals j s = Some (S (j + k), s').
Proof.
  revert fuel j s. induction k as [|k IH]; intros fuel j s Hempty Hnone Hsome Hfuel.
  - destruct fuel as [|fuel]; [lia|]. simpl.
    rewrite Nat.add_0_r in *.
    pose proof (iteration_StopChan i (arrivals j) s Hempty) as Hch.
    destruct (arrivals j) as [|sig rest]; [done|].
    simpl in Hch. rewrite Hch. by eexists.
  - destruct fuel as [|fuel]; [lia|]. simpl.
    assert (Hj : arrivals j = []).
    { rewrite <- (Nat.add_0_r j). apply Hnone. lia. }
    assert (Hch : StopChan (iteration crypto i (arrivals j) s) = []).
    { rewrite iteration_StopChan by done. by rewrite Hj. }
    rewrite Hch.
    destruct (IH fuel (S j) (iteration crypto i (arrivals j) s)) as [s' Hs'];
      [done| | |lia|].
    + intros m Hm. replace (S j + m)%nat with (j + S m)%nat by lia.
      apply Hnone. lia.
    + by replace (S j + k)%nat with (j + S k)%nat by lia.
    + exists s'. rewrite Hs'. do 3 f_equal. lia.
Qed.

Lemma loop_goes_on (fuel : nat) (i : Z) (arrivals : nat → list Signal) (j : nat)
    (s : Server X509 Key) :
  StopChan s = [] →
  (∀ m, (m < fuel)%nat → arrivals (j + m)%nat = []) →
  loop crypto fuel i arrivals j s = None.
Proof.
  revert j s. induction fuel as [|fuel IH]; intros j s Hempty Hnone; [done|].
  simpl.
  assert (Hj : arrivals j = []).
  { rewrite <- (Nat.add_0_r j). apply Hnone. lia. }
  assert (Hch : StopChan (iteration crypto i (arrivals j) s) = []).
  { rewrite iteration_StopChan by done. by rewrite Hj. }
  rewrite Hch.
  apply IH; [done|].
  intros m Hm. replace (S j + m)%nat with (j + S m)%nat by lia. apply Hnone. lia.
Qed.

(** X20: with an empty [StopChan] at the start, the loop returns in the
    first iteration during which a signal arrives, after that many sleeps
    and refresh checks and not before, however many signals arrive in that
    iteration. *)
Lemma ScheduleRefreshAuthorityCert_returns (k fuel : nat)
    (arrivals : nat → list Signal) (s : Server X509 Key) :
  StopChan s = [] →
  (∀ m, (m < k)%nat → arrivals m = []) →
  arrivals k ≠ [] →
  (k < fuel)%nat →
  ∃ s', ScheduleRefreshAuthorityCert crypto fuel arrivals s = Some (S k, s').
Proof.
  intros Hempty Hnone Hsome Hfuel. unfold ScheduleRefreshAuthorityCert.
  by apply (loop_returns k fuel _ arrivals 0%nat s).
Qed.

Lemma ScheduleRefreshAuthorityCert_goes_on (fuel : nat)
    (arrivals : nat → list Signal) (s : Server X509 Key) :
  StopChan s = [] →
  (∀ m, (m < fuel)%nat → arrivals m = []) →
  ScheduleRefreshAuthorityCert crypto fuel arrivals s = None.
Proof.
  intros Hempty Hnone. unfold ScheduleRefreshAuthorityCert.
  by apply loop_goes_on.
Qed.

End Fuel.

(** *** The certificate callback *)

Lemma GetServerCert_keyed {X509 Key : Type} (st : Storage X509 Key)
    (cache : gmap string (Leaf X509 Key)) (host : string) :
  keyed cache →
  LeafHost (fst (GetServerCert st cache host)) = host
  ∧ keyed (snd (GetServerCert st cache host)).
Proof.
  intros Hkeyed. unfold GetServerCert.
  destruct (cache !! host) as [leaf|] eqn:Hhit; simpl.
  - split; [exact (Hkeyed host leaf Hhit)|exact Hkeyed].
  - split; [done|]. by apply map_Forall_insert_2.
Qed.

(** An entry of the cache is never replaced. *)
Lemma GetServerCert_keeps {X509 Key : Type} (st : Storage X509 Key)
    (cache : gmap string (Leaf X509 Key)) (host name : string) (leaf : Leaf X509 Key) :
  cache !! name = Some leaf →
  snd (GetServerCert st cache host) !! name = Some leaf.
Proof.
  intros Hname. unfold GetServerCert.
  destruct (cache !! host) as [hit|] eqn:Hhit; simpl; [done|].
  rewrite lookup_insert_ne; [done|]. intros <-. congruence.
Qed.

(** The first of the names resolved by [Init] ahead of the first handshake
    is cached from then on, signed by the authority cert of that moment. *)
Lemma prewarm_localhost {X509 Key : Type} (s : Server X509 Key) :
  prewarm s ∅ !! "localhost"
  = Some (mkLeaf "localhost" (AuthorityCert (CertStorage s))).
Proof.
  unfold prewarm. do 2 apply GetServerCert_keeps.
  unfold GetServerCert. rewrite lookup_empty. simpl. apply lookup_insert_eq.
Qed.




(** *** The poll interval *)

(** Binary64 arithmetic, as far as the interval needs it: mantissas have 53
    digits, rounding moves a mantissa by at most one unit in the last
    place, and integers below [2^52] convert exactly. *)

Lemma digits2_pos_bounds (p : positive) :
  2 ^ (Zpos (digits2_pos p) - 1) <= Zpos p < 2 ^ Zpos (digits2_pos p).
Proof.
  induction p as [p IH|p IH|]; simpl digits2_pos.
  - rewrite Pos2Z.inj_succ.
    replace (Z.succ (Z.pos (digits2_pos p)) - 1) with (Z.succ (Z.pos (digits2_pos p) - 1)) by lia.
    rewrite !Z.pow_succ_r by lia. lia.
  - rewrite Pos2Z.inj_succ.
    replace (Z.succ (Z.pos (digits2_pos p)) - 1) with (Z.succ (Z.pos (digits2_pos p) - 1)) by lia.
    rewrite !Z.pow_succ_r by lia. lia.
  - simpl. lia.
Qed.

Lemma digits2_pos_unique (p : positive) (d : Z) :
  2 ^ (d - 1) <= Zpos p < 2 ^ d → Zpos (digits2_pos p) = d.
Proof.
  intros [Hlo Hhi]. pose proof (digits2_pos_bounds p) as [Hlo' Hhi'].
  assert (0 < d). { destruct (Z_lt_le_dec 0 d); [done|]. rewrite Z.pow_neg_r in Hlo by lia. 
    assert (2 ^ d <= 1). { destruct (Z.eq_dec d 0) as [->|]; [simpl; lia|]. rewrite Z.pow_neg_r by lia. lia. } lia. }
  destruct (Z.lt_trichotomy (Zpos (digits2_pos p)) d) as [Hlt|[Heq|Hgt]]; [|done|].
  - assert (2 ^ Zpos (digits2_pos p) <= 2 ^ (d - 1)) by (apply Z.pow_le_mono_r; lia). lia.
  - assert (2 ^ d <= 2 ^ (Zpos (digits2_pos p) - 1)) by (apply Z.pow_le_mono_r; lia). lia.
Qed.

(* shr *)
Lemma shr_1_m (mrs : shr_record) :
  0 <= shr_m mrs → shr_m (shr_1 mrs) = shr_m mrs / 2 ∧ 0 <= shr_m (shr_1 mrs).
Proof.
  destruct mrs as [m r s]. cbn [shr_m]. intros Hm.
  destruct m as [|[p|p|]|p]; cbn [shr_1 shr_m]; split; try lia;
    Z.div_mod_to_equations; lia.
Qed.

Lemma iter_shr_m (n : positive) (mrs : shr_record) :
  0 <= shr_m mrs →
  shr_m (SpecFloat.iter_pos shr_1 n mrs) = shr_m mrs / 2 ^ Zpos n
  ∧ 0 <= shr_m (SpecFloat.iter_pos shr_1 n mrs).
Proof.
  revert mrs. induction n as [n IH|n IH|]; intros mrs Hm; simpl SpecFloat.iter_pos.
  - destruct (shr_1_m mrs Hm) as [H1 H1'].
    destruct (IH _ H1') as [H2 H2']. destruct (IH _ H2') as [H3 H3'].
    split; [|done]. rewrite H3, H2, H1.
    rewrite !Z.div_div by lia. f_equal.
    replace (Z.pos n~1) with (1 + Z.pos n + Z.pos n) by lia.
    rewrite !Z.pow_add_r by lia. lia.
  - destruct (IH _ Hm) as [H2 H2']. destruct (IH _ H2') as [H3 H3'].
    split; [|done]. rewrite H3, H2.
    rewrite !Z.div_div by lia. f_equal.
    replace (Z.pos n~0) with (Z.pos n + Z.pos n) by lia.
    rewrite !Z.pow_add_r by lia. lia.
  - destruct (shr_1_m mrs Hm) as [H1 H1']. split; [|done]. rewrite H1. reflexivity.
Qed.

Lemma shr_spec (mrs : shr_record) (e n : Z) :
  0 <= n → 0 <= shr_m mrs →
  snd (shr mrs e n) = e + n ∧ shr_m (fst (shr mrs e n)) = shr_m mrs / 2 ^ n.
Proof.
  intros Hn Hm. destruct n as [|n|n]; [| |lia]; cbn [shr fst snd].
  - split; [lia|]. by rewrite Z.pow_0_r, Z.div_1_r.
  - split; [done|]. by apply iter_shr_m.
Qed.

Lemma fexp_normal (x : Z) : -1021 <= x → fexp 53 1024 x = x - 53.
Proof. intros Hx. unfold fexp, emin. lia. Qed.

Lemma round_nearest_even_bounds (m : Z) (l : location) :
  round_nearest_even m l = m ∨ round_nearest_even m l = m + 1.
Proof. destruct l as [|[]]; simpl; auto. destruct (Z.even m); auto. Qed.

Lemma shr_record_of_loc_m (m : Z) (l : location) : shr_m (shr_record_of_loc m l) = m.
Proof. by destruct l as [|[]]. Qed.

(** Rounding a positive mantissa of at least 53 digits. *)
Lemma binary_round_aux_bounds (p : positive) (e : Z) (l : location) :
  let n := Zpos (digits2_pos p) - 53 in
  0 <= n → -1021 <= Zpos (digits2_pos p) + e → e + n + 1 <= 971 →
  ∃ (mR : positive) (c : Z),
    binary_round_aux 53 1024 false (Zpos p) e l = S754_finite false mR (e + n + c)
    ∧ (c = 0 ∨ c = 1)
    ∧ Zpos (digits2_pos mR) = 53
    ∧ (Zpos mR * 2 ^ c = Zpos p / 2 ^ n ∨ Zpos mR * 2 ^ c = Zpos p / 2 ^ n + 1).
Proof.
  intros n Hn Hlo Hhi.
  pose proof (digits2_pos_bounds p) as [Hp1 Hp2].
  assert (Hpow : 2 ^ Zpos (digits2_pos p) = 2 ^ 53 * 2 ^ n).
  { rewrite <- Z.pow_add_r by lia. f_equal. lia. }
  assert (Hpow' : 2 ^ (Zpos (digits2_pos p) - 1) = 2 ^ 52 * 2 ^ n).
  { rewrite <- Z.pow_add_r by lia. f_equal. lia. }
  assert (H2n : 0 < 2 ^ n) by (apply Z.pow_pos_nonneg; lia).
  assert (Ht : 2 ^ 52 <= Zpos p / 2 ^ n < 2 ^ 53).
  { split.
    - apply Z.div_le_lower_bound; lia.
    - apply Z.div_lt_upper_bound; lia. }
  unfold binary_round_aux, shr_fexp.
  cbn [Zdigits2]. rewrite (fexp_normal _ Hlo).
  replace (Zpos (digits2_pos p) + e - 53 - e) with n by lia.
  destruct (shr_spec (shr_record_of_loc (Zpos p) l) e n) as [He' Hm'];
    [lia|rewrite shr_record_of_loc_m; lia|].
  rewrite shr_record_of_loc_m in Hm'.
  destruct (shr (shr_record_of_loc (Zpos p) l) e n) as [mrs' e'].
  cbn [fst snd] in He', Hm'. subst e'.
  set (u := round_nearest_even (shr_m mrs') (loc_of_shr_record mrs')).
  assert (Hu : u = Zpos p / 2 ^ n ∨ u = Zpos p / 2 ^ n + 1).
  { unfold u. rewrite <- Hm'. apply round_nearest_even_bounds. }
  destruct (Z_lt_le_dec u (2 ^ 53)) as [Hsmall|Hbig].
  - destruct u as [|pu|pu] eqn:Hpu; [lia| |lia].
    assert (Hd : Zpos (digits2_pos pu) = 53) by (apply digits2_pos_unique; lia).
    cbn [Zdigits2]. rewrite Hd, fexp_normal by lia.
    replace (53 + (e + n) - 53 - (e + n)) with 0 by lia.
    cbn [shr shr_record_of_loc shr_m].
    exists pu, 0. rewrite Z.add_0_r.
    assert (Hle : (e + n <=? 1024 - 53)%Z = true) by (apply Z.leb_le; lia).
    rewrite Hle. split; [done|]. split; [by left|]. split; [done|].
    rewrite Z.pow_0_r, Z.mul_1_r. done.
  - assert (Hu53 : u = 2 ^ 53) by lia.
    rewrite Hu53.
    change (Zdigits2 (2 ^ 53)) with 54. rewrite fexp_normal by lia.
    replace (54 + (e + n) - 53 - (e + n)) with 1 by lia.
    cbn [shr shr_record_of_loc shr_m SpecFloat.iter_pos].
    change (shr_1 {| shr_m := 2 ^ 53; shr_r := false; shr_s := false |})
      with {| shr_m := 2 ^ 52; shr_r := false; shr_s := false |}.
    cbn [shr_m].
    assert (Hle : (e + n + 1 <=? 1024 - 53)%Z = true) by (apply Z.leb_le; lia).
    change (2 ^ 52) with (Zpos (2 ^ 52)%positive). cbn match.
    rewrite Hle.
    exists (2 ^ 52)%positive, 1. split; [done|]. split; [by right|]. split; [done|].
    change (Z.pos (2 ^ 52) * 2 ^ 1) with (2 ^ 53). lia.
Qed.

Lemma float64_100 : float64 100 = S754_finite false hundred (-46).
Proof. reflexivity. Qed.

Lemma SFdiv_core_hundred (m1 : positive) (e1 : Z) :
  Zpos (digits2_pos m1) = 53 → -1000 <= e1 →
  ∃ l, SFdiv_core_binary 53 1024 (Zpos m1) e1 (Zpos hundred) (-46)
       = (Zpos m1 * 128 / 100, e1 - 7, l).
Proof.
  intros Hd He. unfold SFdiv_core_binary. cbn [Zdigits2]. rewrite Hd.
  change (Z.pos (digits2_pos hundred)) with 53.
  rewrite fexp_normal by lia.
  replace (Z.min (53 + e1 - (53 + -46) - 53) (e1 - -46)) with (e1 - 7) by lia.
  replace (e1 - -46 - (e1 - 7)) with 53 by lia. cbn match.
  rewrite Z.shiftl_mul_pow2 by lia.
  assert (Hq : Zpos m1 * 2 ^ 53 / Zpos hundred = Zpos m1 * 128 / 100).
  { change (2 ^ 53) with (128 * 2 ^ 46). change (Zpos hundred) with (100 * 2 ^ 46).
    rewrite Z.mul_assoc. apply Z.div_mul_cancel_r; lia. }
  rewrite <- Hq. unfold Z.div.
  destruct (Z.div_eucl (Zpos m1 * 2 ^ 53) (Zpos hundred)) as [q r]. by eexists.
Qed.

(** The quotient of a normal positive [float64] by [100.0]. *)
Lemma SFdiv_hundred (m1 : positive) (e1 : Z) :
  Zpos (digits2_pos m1) = 53 → -1000 <= e1 <= 900 →
  ∃ (mR : positive) (n c : Z),
    SFdiv 53 1024 (S754_finite false m1 e1) (float64 100)
    = S754_finite false mR (e1 - 7 + n + c)
    ∧ (n = 0 ∨ n = 1) ∧ (c = 0 ∨ c = 1)
    ∧ Zpos (digits2_pos mR) = 53
    ∧ Zpos m1 * 128 / 100 / 2 ^ n <= Zpos mR * 2 ^ c <= Zpos m1 * 128 / 100 / 2 ^ n + 1.
Proof.
  intros Hd He. rewrite float64_100. unfold SFdiv.
  destruct (SFdiv_core_hundred m1 e1 Hd) as [l ->]; [lia|]. cbn [xorb].
  pose proof (digits2_pos_bounds m1) as Hm1. rewrite Hd in Hm1.
  change (2 ^ (53 - 1)) with 4503599627370496 in Hm1.
  change (2 ^ 53) with 9007199254740992 in Hm1.
  assert (Hq : 2 ^ 52 <= Zpos m1 * 128 / 100 < 2 ^ 54).
  { change (2 ^ 52) with 4503599627370496. change (2 ^ 54) with 18014398509481984.
    split.
    - apply Z.div_le_lower_bound; lia.
    - apply Z.div_lt_upper_bound; lia. }
  destruct (Zpos m1 * 128 / 100) as [|q|q] eqn:Hqe; [lia| |lia].
  assert (Hdq : Zpos (digits2_pos q) = 53 ∨ Zpos (digits2_pos q) = 54).
  { destruct (Z_lt_le_dec (Zpos q) (2 ^ 53)).
    - left. apply digits2_pos_unique. change (2 ^ (53 - 1)) with (2 ^ 52). lia.
    - right. apply digits2_pos_unique. change (2 ^ (54 - 1)) with (2 ^ 53). lia. }
  destruct (binary_round_aux_bounds q (e1 - 7) l) as (mR & c & Hr & Hc & HdR & Hv);
    [lia|lia|lia|].
  exists mR, (Zpos (digits2_pos q) - 53), c.
  split; [done|]. split; [lia|]. split; [done|]. split; [done|]. lia.
Qed.

Lemma binary_round_aux_exact (m : positive) (e : Z) :
  Zpos (digits2_pos m) = 53 → -1021 <= 53 + e → e <= 971 →
  binary_round_aux 53 1024 false (Zpos m) e loc_Exact = S754_finite false m e.
Proof.
  intros Hd Hlo Hhi. unfold binary_round_aux, shr_fexp.
  cbn [Zdigits2]. rewrite Hd, fexp_normal by lia.
  replace (53 + e - 53 - e) with 0 by lia.
  cbn [shr shr_record_of_loc loc_of_shr_record round_nearest_even shr_m Zdigits2].
  rewrite Hd, fexp_normal by lia.
  replace (53 + e - 53 - e) with 0 by lia.
  cbn [shr shr_record_of_loc shr_m].
  assert (Hle : (e <=? 1024 - 53)%Z = true) by (apply Z.leb_le; lia).
  by rewrite Hle.
Qed.

Lemma Pos_iter_xO (p k : positive) :
  Zpos (Pos.iter xO p k) = Zpos p * 2 ^ Zpos k.
Proof.
  induction k as [|k IH] using Pos.peano_ind.
  - simpl. lia.
  - rewrite Pos.iter_succ, Pos2Z.inj_xO, IH, Pos2Z.inj_succ, Z.pow_succ_r by lia. lia.
Qed.

(** [float64] of a positive integer below [2^52] is exact. *)
Lemma float64_small (p : positive) :
  Zpos p < 2 ^ 52 →
  ∃ m1 : positive,
    float64 (Zpos p) = S754_finite false m1 (Zpos (digits2_pos p) - 53)
    ∧ Zpos (digits2_pos m1) = 53
    ∧ Zpos m1 = Zpos p * 2 ^ (53 - Zpos (digits2_pos p)).
Proof.
  intros Hp. pose proof (digits2_pos_bounds p) as [Hlo Hhi].
  assert (Hd : Zpos (digits2_pos p) <= 52).
  { destruct (Z_lt_le_dec 52 (Zpos (digits2_pos p))) as [Hgt|]; [|done].
    assert (2 ^ 52 <= 2 ^ (Zpos (digits2_pos p) - 1)) by (apply Z.pow_le_mono_r; lia).
    lia. }
  unfold float64, binary_normalize, binary_round.
  rewrite fexp_normal by lia. unfold shl_align.
  destruct (Zpos (digits2_pos p) + 0 - 53 - 0) as [|k|k] eqn:Hk; [lia|lia|].
  assert (Hk' : Zpos k = 53 - Zpos (digits2_pos p)) by lia.
  assert (Hval : Zpos (Pos.iter xO p k) = Zpos p * 2 ^ (53 - Zpos (digits2_pos p))).
  { by rewrite Pos_iter_xO, Hk'. }
  assert (Hdm : Zpos (digits2_pos (Pos.iter xO p k)) = 53).
  { apply digits2_pos_unique. rewrite Hval.
    assert (H52 : 2 ^ (53 - 1) = 2 ^ (Zpos (digits2_pos p) - 1) * 2 ^ (53 - Zpos (digits2_pos p))).
    { rewrite <- Z.pow_add_r by lia. f_equal. lia. }
    assert (H53 : 2 ^ 53 = 2 ^ Zpos (digits2_pos p) * 2 ^ (53 - Zpos (digits2_pos p))).
    { rewrite <- Z.pow_add_r by lia. f_equal. lia. }
    assert (0 < 2 ^ (53 - Zpos (digits2_pos p))) by (apply Z.pow_pos_nonneg; lia).
    rewrite H52, H53. nia. }
  exists (Pos.iter xO p k).
  rewrite binary_round_aux_exact by lia.
  split; [f_equal; lia|]. split; done.
Qed.

(** [float64] of an integer from [2^52] up to [int64]'s largest is a normal
    number with a nonnegative exponent. *)
Lemma float64_large (p : positive) :
  2 ^ 52 <= Zpos p < 2 ^ 63 →
  ∃ (m1 : positive) (e1 : Z),
    float64 (Zpos p) = S754_finite false m1 e1
    ∧ Zpos (digits2_pos m1) = 53 ∧ 0 <= e1 <= 11.
Proof.
  intros [Hp1 Hp2]. pose proof (digits2_pos_bounds p) as [Hlo Hhi].
  assert (Hd : 53 <= Zpos (digits2_pos p) <= 63).
  { split.
    - destruct (Z_lt_le_dec (Zpos (digits2_pos p)) 53) as [Hlt|]; [|done].
      assert (2 ^ Zpos (digits2_pos p) <= 2 ^ 52) by (apply Z.pow_le_mono_r; lia). lia.
    - destruct (Z_lt_le_dec 63 (Zpos (digits2_pos p))) as [Hgt|]; [|done].
      assert (2 ^ 63 <= 2 ^ (Zpos (digits2_pos p) - 1)) by (apply Z.pow_le_mono_r; lia).
      lia. }
  unfold float64, binary_normalize, binary_round.
  rewrite fexp_normal by lia. unfold shl_align.
  destruct (binary_round_aux_bounds p 0 loc_Exact) as (mR & c & Hr & Hc & HdR & _);
    [lia|lia|lia|].
  destruct (Zpos (digits2_pos p) + 0 - 53 - 0) as [|k|k] eqn:Hk; [| |lia];
    rewrite Hr; exists mR, (0 + (Zpos (digits2_pos p) - 53) + c);
    (split; [done|]; split; [done|lia]).
Qed.

Lemma interval_small (p : positive) :
  Zpos p < 2 ^ 52 →
  Floor (SFdiv 53 1024 (float64 (Zpos p)) (float64 100)) = Zpos p / 100.
Proof.
  intros Hp.
  destruct (float64_small p Hp) as (m1 & -> & Hd1 & Hm1).
  pose proof (digits2_pos_bounds p) as [Hlo Hhi].
  set (d := Zpos (digits2_pos p)) in *.
  assert (Hd : 1 <= d <= 52).
  { split; [lia|].
    destruct (Z_lt_le_dec 52 d) as [Hgt|]; [|done].
    assert (2 ^ 52 <= 2 ^ (d - 1)) by (apply Z.pow_le_mono_r; lia). lia. }
  destruct (SFdiv_hundred m1 (d - 53) Hd1) as (mR & n & c & -> & Hn & Hc & HdR & Hv);
    [lia|].
  unfold Floor.
  assert (Hneg : (0 <=? d - 53 - 7 + n + c)%Z = false) by (apply Z.leb_gt; lia).
  rewrite Hneg.
  replace (- (d - 53 - 7 + n + c)) with (60 - d - n - c) by lia.
  set (K' := 2 ^ (60 - d - n - c)).
  assert (HK' : 0 < K') by (apply Z.pow_pos_nonneg; lia).
  assert (HK : 256 <= K' * 2 ^ n * 2 ^ c).
  { unfold K'. rewrite <- !Z.pow_add_r by lia.
    change 256 with (2 ^ 8). apply Z.pow_le_mono_r; lia. }
  assert (Hq : Zpos m1 * 128 = Zpos p * (K' * 2 ^ n * 2 ^ c)).
  { rewrite Hm1. unfold K'. rewrite <- !Z.pow_add_r by lia.
    change 128 with (2 ^ 7). rewrite <- Z.mul_assoc, <- Z.pow_add_r by lia.
    do 2 f_equal. lia. }
  rewrite Hq in Hv. clear Hq Hm1.
  symmetry. apply (Z.div_unique _ _ _ (Zpos mR - K' * (Zpos p / 100))); [|ring].
  left.
  pose proof (Z.div_mod (Zpos p) 100 ltac:(lia)) as Hk.
  pose proof (Z.mod_pos_bound (Zpos p) 100 ltac:(lia)) as Hf.
  set (k := Zpos p / 100) in *. set (f := Zpos p mod 100) in *.
  assert (HkK : 0 <= k * K') by (apply Z.mul_nonneg_nonneg; [apply Z.div_pos|]; lia).
  assert (HfK : 0 <= f * K' <= 99 * K') by nia.
  destruct Hn as [-> | ->], Hc as [-> | ->];
    change (2 ^ 0) with 1 in Hv, HK; change (2 ^ 1) with 2 in Hv, HK;
    rewrite ?Z.mul_1_r, ?Z.div_1_r in Hv, HK.
  - assert (Hpk : Zpos p * K' = 100 * (k * K') + f * K') by (rewrite Hk at 1; ring).
    rewrite Hpk in Hv. revert Hv. Z.div_mod_to_equations. lia.
  - assert (Hpk : Zpos p * (K' * 2) = 100 * (2 * (k * K')) + 2 * (f * K'))
      by (rewrite Hk at 1; ring).
    rewrite Hpk in Hv. revert Hv. Z.div_mod_to_equations. lia.
  - assert (Hpk : Zpos p * (K' * 2) = 100 * (2 * (k * K')) + 2 * (f * K'))
      by (rewrite Hk at 1; ring).
    rewrite Hpk in Hv. revert Hv. Z.div_mod_to_equations. lia.
  - assert (Hpk : Zpos p * (K' * 2 * 2) = 100 * (4 * (k * K')) + 4 * (f * K'))
      by (rewrite Hk at 1; ring).
    rewrite Hpk in Hv. revert Hv. Z.div_mod_to_equations. lia.
Qed.

Lemma interval_large (p : positive) :
  2 ^ 52 <= Zpos p < 2 ^ 63 →
  10000 <= Floor (SFdiv 53 1024 (float64 (Zpos p)) (float64 100)).
Proof.
  intros Hp.
  destruct (float64_large p Hp) as (m1 & e1 & -> & Hd1 & He1).
  destruct (SFdiv_hundred m1 e1 Hd1) as (mR & n & c & -> & Hn & Hc & HdR & _); [lia|].
  pose proof (digits2_pos_bounds mR) as [HmR _]. rewrite HdR in HmR.
  change (2 ^ (53 - 1)) with 4503599627370496 in HmR.
  unfold Floor. destruct (Z.leb_spec 0 (e1 - 7 + n + c)) as [Hpos|Hneg].
  - assert (1 <= 2 ^ (e1 - 7 + n + c)).
    { change 1 with (2 ^ 0). apply Z.pow_le_mono_r; lia. }
    nia.
  - assert (H2 : 0 < 2 ^ (- (e1 - 7 + n + c)) <= 2 ^ 7).
    { split; [apply Z.pow_pos_nonneg; lia|apply Z.pow_le_mono_r; lia]. }
    change (2 ^ 7) with 128 in H2.
    apply Z.div_le_lower_bound; [lia|]. nia.
Qed.

Lemma interval_exact (v : Z) :
  0 <= v < 2 ^ 63 → interval v = Z.min (v / 100) 10000.
Proof.
  intros [Hlo Hhi]. unfold interval.
  destruct v as [|p|p]; [reflexivity| |lia].
  destruct (Z_lt_le_dec (Zpos p) (2 ^ 52)) as [Hsmall|Hlarge].
  - by rewrite interval_small.
  - pose proof (interval_large p (conj Hlarge Hhi)) as Hfloor.
    assert (10000 <= Zpos p / 100).
    { apply Z.div_le_lower_bound; [lia|].
      change (2 ^ 52) with 4503599627370496 in Hlarge. lia. }
    lia.
Qed.

(** Beyond [2^53] in magnitude the conversion to [float64] rounds: for the
    most negative validity but one the floor of the binary64 quotient is not
    the floor of the exact one. *)
Example interval_rounds :
  interval (- 9223372036854775807) = - 92233720368547760
  ∧ (- 9223372036854775807) / 100 = - 92233720368547759.
Proof. split; reflexivity. Qed.

(** No step of the loop changes its local [interval]. *)
Lemma step_pollInterval {X509 Key : Type} (crypto : CryptoProvider X509 Key)
    (l l' : Loop X509 Key) (a : Label) :
  step crypto l a l' → pollInterval l' = pollInterval l.
Proof. by destruct 1. Qed.

(** C6: for a validity duration [V] (a nonnegative [int64]) the interval
    the loop computes on entry, in binary64 arithmetic, is
    [min (floor (V / 100)) 10000], and it keeps that value along every run
    of the loop; a validity of [500000] gives [5000], one of [2000000] the
    cap [10000]. *)
Theorem interval_spec {X509 Key : Type} (crypto : CryptoProvider X509 Key)
    (s : Server X509 Key) :
  (0 <= CaValidity (Opts s) < 2 ^ 63 →
   pollInterval (enter s) = Z.min (CaValidity (Opts s) / 100) 10000
   ∧ ∀ tr l, steps crypto (enter s) tr l →
             pollInterval l = Z.min (CaValidity (Opts s) / 100) 10000)
  ∧ interval 500000 = 5000
  ∧ interval 2000000 = 10000.
Proof.
  split; [|split; reflexivity].
  intros Hv. pose proof (interval_exact _ Hv) as Hentry.
  split; [exact Hentry|].
  intros tr l Hrun. rewrite <- Hentry.
  change (interval (CaValidity (Opts s))) with (pollInterval (enter s)).
  induction Hrun as [|l1 a l2 tr l3 Hstep _ IH]; [done|].
  rewrite IH. by apply (step_pollInterval crypto l1 l2 a).
Qed.

Lemma interval_spec_witness :
  0 <= CaValidity (Opts Scenario.firstStart) < 2 ^ 63
  ∧ pollInterval (enter Scenario.firstStart) = 5000.
Proof.
  assert (Hv : 0 <= CaValidity (Opts Scenario.firstStart) < 2 ^ 63)
    by (split; [discriminate|reflexivity]).
  split; [exact Hv|].
  exact (proj1 (proj1 (interval_spec Scenario.provider Scenario.firstStart) Hv)).
Defined.

(* ===================================================================== *)
(** ** More on the cluster client                                         *)
(* ===================================================================== *)

Import outcomes tokenreview.

(** *** [UpdateAuthorityCert], case by case *)

Lemma UpdateAuthorityCert_outcome (cert pri ns : string) (c : Cluster) :
  secret_outcome cert pri ns c (snd (UpdateAuthorityCert cert pri ns c)).
Proof.
  kube_unfold.
  destruct (outage c (length (requests c))) eqn:Hget; simpl.
  - destruct (outage c (S (length (requests c)))) eqn:Hcreate; simpl.
    + rewrite fresh_secret_matches. simpl.
      apply (secret_create_failed cert pri ns c Unavailable Unavailable).
    + destruct (Secrets c !! ns) as [s|] eqn:Hs; simpl;
        rewrite fresh_secret_matches; simpl.
      * apply (secret_create_failed cert pri ns c Unavailable AlreadyExists).
      * by apply (secret_created cert pri ns c Unavailable).
  - destruct (Secrets c !! ns) as [s|] eqn:Hs; simpl.
    + destruct (String.eqb (index (SecretData s) "cert.pem") cert
                && String.eqb (index (SecretData s) "pri.pem") pri) eqn:Hsame; simpl.
      * by apply (secret_kept cert pri ns c s).
      * destruct (outage c (S (length (requests c)))) eqn:Hupd; simpl.
        -- by apply (secret_update_failed cert pri ns c s Unavailable).
        -- rewrite Hs. simpl. by apply (secret_updated cert pri ns c s).
    + destruct (outage c (S (length (requests c)))) eqn:Hcreate; simpl;
        [|rewrite Hs; simpl]; rewrite fresh_secret_matches; simpl.
      * apply (secret_create_failed cert pri ns c NotFound Unavailable).
      * by apply (secret_created cert pri ns c NotFound).
Qed.

(** X1: whatever requests get lost, [UpdateAuthorityCert] leaves the
    secret of the namespace either exactly as it was or carrying the new
    cert PEM and the new private-key PEM together -- never one without the
    other -- and it touches neither the secrets of other namespaces, nor a
    trust record, nor the namespace list. *)
Theorem UpdateAuthorityCert_all_or_nothing (cert pri ns : string) (c : Cluster) :
  let c' := snd (UpdateAuthorityCert cert pri ns c) in
  (Secrets c' = Secrets c
   ∨ ∃ s, Secrets c' = <[ns := s]> (Secrets c)
          ∧ index (SecretData s) "cert.pem" = cert
          ∧ index (SecretData s) "pri.pem" = pri)
  ∧ (∀ m, m ≠ ns → Secrets c' !! m = Secrets c !! m)
  ∧ ConfigMaps c' = ConfigMaps c
  ∧ Namespaces c' = Namespaces c.
Proof.
  cbv zeta.
  destruct (UpdateAuthorityCert_outcome cert pri ns c); simpl.
  - split; [right; eexists; split; [done|]; simpl|].
    + by rewrite index_insert_ne, !index_insert.
    + split; [|done]. intros m Hm. by rewrite lookup_insert_ne.
  - split; [by left|done].
  - split; [by left|done].
  - split; [right; eexists; split; [done|]; simpl|].
    + by rewrite index_insert_ne, !index_insert.
    + split; [|done]. intros m Hm. by rewrite lookup_insert_ne.
  - split; [by left|done].
Qed.

Lemma UpdateAuthorityCert_all_or_nothing_witness :
  "apps" ≠ "mesh"
  ∧ Secrets (snd (UpdateAuthorityCert "CA-NEW" "KEY-NEW" "mesh" Cases.annotated)) !! "apps"
    = Secrets Cases.annotated !! "apps".
Proof.
  assert (Hne : "apps" ≠ "mesh") by discriminate.
  split; [exact Hne|].
  exact (proj1 (proj2 (UpdateAuthorityCert_all_or_nothing
                         "CA-NEW" "KEY-NEW" "mesh" Cases.annotated)) "apps" Hne).
Defined.

(** X2: an overwrite keeps the name of the stored secret and every entry
    of its data other than [cert.pem] and [pri.pem]. *)
Theorem UpdateAuthorityCert_keeps_other_entries (cert pri ns : string) (c : Cluster)
    (s : Secret) :
  Secrets c !! ns = Some s →
  ∃ s', Secrets (snd (UpdateAuthorityCert cert pri ns c)) !! ns = Some s'
        ∧ secretsAgreeOff ["cert.pem"; "pri.pem"] s s'.
Proof.
  intros Hs.
  destruct (UpdateAuthorityCert_outcome cert pri ns c)
    as [e Habs|e e'|s0 Hs0 Hsame|s0 Hs0 Hdiff|s0 e Hs0 Hdiff]; simpl;
    try (exists s; by split).
  - congruence.
  - simplify_eq. eexists. rewrite lookup_insert_eq. split; [done|].
    split; [done|]. intros k Hk. simpl.
    rewrite !lookup_insert_ne; [done| |]; intros <-; apply Hk; set_solver.
Qed.

Lemma UpdateAuthorityCert_keeps_other_entries_witness :
  ∃ s', Secrets (snd (UpdateAuthorityCert "CA-NEW" "KEY-NEW" "mesh" Cases.annotated))
          !! "mesh" = Some s'
        ∧ SecretData s' !! "owner" = Some "ops"
        ∧ index (SecretData s') "cert.pem" = "CA-NEW".
Proof.
  destruct (UpdateAuthorityCert_keeps_other_entries "CA-NEW" "KEY-NEW" "mesh"
              Cases.annotated
              (mkSecret "dubbo-ca-secret"
                 (<["owner" := "ops"]>
                    (<["pri.pem" := "KEY-OLD"]> (<["cert.pem" := "CA-OLD"]> ∅))))
              eq_refl) as (s' & Hs' & _ & Hother).
  exists s'. split; [exact Hs'|]. split.
  - rewrite (Hother "owner"); [reflexivity|].
    intros Hin. apply elem_of_cons in Hin as [Hin|Hin]; [discriminate|].
    apply elem_of_cons in Hin as [Hin|Hin]; [discriminate|].
    by apply elem_of_nil in Hin.
  - vm_compute in Hs'. by simplify_eq.
Defined.

(** X3: [UpdateAuthorityCert] first sends a [Get] for the secret and then
    at most one more request for it: a [Create] when the [Get] failed, an
    [Update] when it succeeded -- never an update after a create. *)
Theorem UpdateAuthorityCert_requests (cert pri ns : string) (c : Cluster) :
  ∃ e rest,
    requests (snd (UpdateAuthorityCert cert pri ns c))
    = rest ++ mkRequest VGet RSecrets ns e :: requests c
    ∧ (length rest ≤ 1)%nat
    ∧ Forall (fun r => resource r = RSecrets ∧ namespace r = ns
                       ∧ verb r = match e with
                                  | Some _ => VCreate
                                  | None => VUpdate
                                  end) rest.
Proof.
  destruct (UpdateAuthorityCert_outcome cert pri ns c)
    as [e Habs|e e'|s0 Hs0 Hsame|s0 Hs0 Hdiff|s0 e Hs0 Hdiff]; cbn [requests persisted].
  - exists (Some e), [mkRequest VCreate RSecrets ns None].
    split; [done|]. split; [done|]. by repeat constructor.
  - exists (Some e), [mkRequest VCreate RSecrets ns (Some e')].
    split; [done|]. split; [done|]. by repeat constructor.
  - exists None, []. split; [done|]. split; [simpl; lia|]. constructor.
  - exists None, [mkRequest VUpdate RSecrets ns None].
    split; [done|]. split; [done|]. by repeat constructor.
  - exists None, [mkRequest VUpdate RSecrets ns (Some e)].
    split; [done|]. split; [done|]. by repeat constructor.
Qed.

(** X4: when the [Get] of [UpdateAuthorityCert] is lost while the secret
    exists, the secret is left as it is, also when its content differs from
    the new one: the client tries to create it, fails, and gives up without
    an update. *)
Theorem UpdateAuthorityCert_lost_read (cert pri ns : string) (c : Cluster) (s : Secret) :
  lost c = true →
  Secrets c !! ns = Some s →
  Secrets (snd (UpdateAuthorityCert cert pri ns c)) = Secrets c
  ∧ ∃ e, requests (snd (UpdateAuthorityCert cert pri ns c))
         = mkRequest VCreate RSecrets ns (Some e)
           :: mkRequest VGet RSecrets ns (Some Unavailable) :: requests c.
Proof.
  intros Hlost Hs. kube_unfold. rewrite Hlost. simpl.
  destruct (outage c (S (length (requests c)))); simpl;
    [|rewrite Hs; simpl]; rewrite fresh_secret_matches; simpl;
    (split; [done|by eexists]).
Qed.

Lemma UpdateAuthorityCert_lost_read_witness :
  lost Cases.blinking = true
  ∧ Secrets (snd (UpdateAuthorityCert "CA-NEW" "KEY-NEW" "mesh" Cases.blinking))
    = Secrets Cases.blinking.
Proof.
  split; [reflexivity|].
  exact (proj1 (UpdateAuthorityCert_lost_read "CA-NEW" "KEY-NEW" "mesh" Cases.blinking
                  (mkSecret "dubbo-ca-secret"
                     (<["pri.pem" := "KEY-IIIIIII"]> (<["cert.pem" := "CA-LOADED"]> ∅)))
                  eq_refl eq_refl)).
Defined.

Lemma UpdateAuthorityCert_outage (cert pri ns : string) (c : Cluster) :
  outage (snd (UpdateAuthorityCert cert pri ns c)) = outage c
  ∧ Namespaces (snd (UpdateAuthorityCert cert pri ns c)) = Namespaces c
  ∧ ConfigMaps (snd (UpdateAuthorityCert cert pri ns c)) = ConfigMaps c.
Proof. by destruct (UpdateAuthorityCert_outcome cert pri ns c). Qed.

(** *** Records that carry data

    The client leaves no record without data behind: a cluster whose
    records carry data stays one, whatever the client does and whatever
    gets lost. *)

Lemma UpdateAuthorityCert_carries_data (cert pri ns m : string) (c : Cluster) :
  secretCarriesData m c →
  secretCarriesData m (snd (UpdateAuthorityCert cert pri ns c)).
Proof.
  intros Hdata s.
  destruct (UpdateAuthorityCert_outcome cert pri ns c); cbn [Secrets persisted];
    try apply Hdata.
  - destruct (decide (m = ns)) as [->|Hm].
    + rewrite lookup_insert_eq. intros [= <-]. apply insert_non_empty.
    + rewrite lookup_insert_ne by done. apply Hdata.
  - destruct (decide (m = ns)) as [->|Hm].
    + rewrite lookup_insert_eq. intros [= <-]. apply insert_non_empty.
    + rewrite lookup_insert_ne by done. apply Hdata.
Qed.

Lemma broadcastTo_carries_data (cert n : string) (c : Cluster) :
  configMapsCarryData c → configMapsCarryData (snd (broadcastTo cert n c)).
Proof.
  intros Hdata. unfold configMapsCarryData in *.
  destruct (broadcastTo_outcome cert n c); cbn [ConfigMaps answered]; try done.
  - apply map_Forall_insert_2; [apply insert_non_empty|done].
  - apply map_Forall_insert_2; [apply insert_non_empty|done].
Qed.

Lemma rangeItems_carries_data (cert : string) (items : list string) (c : Cluster) :
  configMapsCarryData c → configMapsCarryData (snd (rangeItems cert items c)).
Proof.
  revert c. induction items as [|m rest IH]; intros c Hdata; [done|].
  rewrite rangeItems_cons.
  destruct (String.eqb m "kube-system"); [by apply IH|].
  pose proof (broadcastTo_carries_data cert m c Hdata) as Hdata'.
  destruct (fst (broadcastTo cert m c)); [by apply IH|done].
Qed.

Lemma UpdateAuthorityPublicKey_carries_data (cert : string) (c : Cluster) :
  configMapsCarryData c → configMapsCarryData (snd (UpdateAuthorityPublicKey cert c)).
Proof.
  intros Hdata. rewrite UpdateAuthorityPublicKey_unfold.
  destruct (lost c); [done|]. by apply rangeItems_carries_data.
Qed.

(** X5: round trip on a cluster that answers every request and whose
    secret, if there is one, carries data: what [UpdateAuthorityCert] was
    given is what [GetAuthorityCert] returns afterwards. *)
Theorem GetAuthorityCert_UpdateAuthorityCert (cert pri ns : string) (c : Cluster) :
  reliable c →
  secretCarriesData ns c →
  fst (GetAuthorityCert ns (snd (UpdateAuthorityCert cert pri ns c))) = (cert, pri).
Proof.
  intros Hrel _.
  destruct (UpdateAuthorityCert_stored cert pri ns c Hrel) as (s & Hs & Hcert & Hpri).
  destruct (UpdateAuthorityCert_outage cert pri ns c) as (Hout & _).
  unfold GetAuthorityCert, bind, ret, SecretsGet, lost.
  rewrite Hout, Hrel, Hs. simpl. by rewrite Hcert, Hpri.
Qed.

Lemma GetAuthorityCert_UpdateAuthorityCert_witness :
  reliable Cases.annotated
  ∧ secretCarriesData "mesh" Cases.annotated
  ∧ fst (GetAuthorityCert "mesh"
           (snd (UpdateAuthorityCert "CA-NEW" "KEY-NEW" "mesh" Cases.annotated)))
    = ("CA-NEW", "KEY-NEW").
Proof.
  assert (Hrel : reliable Cases.annotated) by (intros i; reflexivity).
  assert (Hdata : secretCarriesData "mesh" Cases.annotated).
  { intros sec Hsec. injection Hsec as <-. apply insert_non_empty. }
  split; [exact Hrel|]. split; [exact Hdata|].
  exact (GetAuthorityCert_UpdateAuthorityCert "CA-NEW" "KEY-NEW" "mesh"
           Cases.annotated Hrel Hdata).
Defined.

(** *** [UpdateAuthorityPublicKey]: what it leaves alone *)

Lemma rangeItems_system (cert : string) (items : list string) (c : Cluster) :
  ConfigMaps (snd (rangeItems cert items c)) !! "kube-system"
  = ConfigMaps c !! "kube-system"
  ∧ trustCalls "kube-system" (requests (snd (rangeItems cert items c)))
    = trustCalls "kube-system" (requests c).
Proof.
  revert c. induction items as [|m rest IH]; intros c; [done|].
  rewrite rangeItems_cons.
  destruct (String.eqb_spec m "kube-system") as [->|Hm]; [by apply IH|].
  destruct (broadcastTo_frame cert m "kube-system" c Hm) as [Hl Hc].
  destruct (fst (broadcastTo cert m c)); simpl; [|done].
  destruct (IH (snd (broadcastTo cert m c))) as [Hl' Hc'].
  by rewrite Hl', Hc'.
Qed.

(** X6: whatever happens, a broadcast leaves the secrets and the namespace
    list as they are, sends no request for the trust record of
    [kube-system] and does not change it, and does neither for a namespace
    that is not listed. *)
Theorem UpdateAuthorityPublicKey_frame (cert : string) (c : Cluster) :
  let c' := snd (UpdateAuthorityPublicKey cert c) in
  Secrets c' = Secrets c
  ∧ Namespaces c' = Namespaces c
  ∧ ConfigMaps c' !! "kube-system" = ConfigMaps c !! "kube-system"
  ∧ trustCalls "kube-system" (requests c') = trustCalls "kube-system" (requests c)
  ∧ ∀ n, n ∉ Namespaces c →
         ConfigMaps c' !! n = ConfigMaps c !! n
         ∧ trustCalls n (requests c') = trustCalls n (requests c).
Proof.
  cbv zeta.
  destruct (UpdateAuthorityPublicKey_answered cert c) as (new & table & Hc' & _).
  split; [by rewrite Hc'|]. split; [by rewrite Hc'|]. clear Hc'.
  rewrite UpdateAuthorityPublicKey_unfold. destruct (lost c); [done|].
  destruct (rangeItems_system cert (Namespaces c)
              (logged VList RNamespaces "" None c)) as [Hl Hc].
  split; [done|]. split; [done|].
  intros n Hn.
  by destruct (rangeItems_frame cert n (Namespaces c)
                 (logged VList RNamespaces "" None c) Hn) as [-> ->].
Qed.

Lemma UpdateAuthorityPublicKey_frame_witness :
  ("dev" ∉ Namespaces Cases.halfway)
  ∧ trustCalls "dev" (requests (snd (UpdateAuthorityPublicKey "NEW" Cases.halfway)))
    = trustCalls "dev" (requests Cases.halfway).
Proof.
  assert (Hn : "dev" ∉ Namespaces Cases.halfway).
  { intros Hin. apply elem_of_cons in Hin as [Hin|Hin]; [discriminate|].
    apply elem_of_cons in Hin as [Hin|Hin]; [discriminate|].
    apply elem_of_cons in Hin as [Hin|Hin]; [discriminate|].
    by apply elem_of_nil in Hin. }
  split; [exact Hn|].
  exact (proj2 (proj2 (proj2 (proj2 (proj2 (UpdateAuthorityPublicKey_frame
                                              "NEW" Cases.halfway)))) "dev" Hn)).
Defined.

(** *** [UpdateAuthorityPublicKey]: what a result of [true] means *)

Lemma answered_reliable (new : list Request) (table : gmap string ConfigMap)
    (c : Cluster) :
  reliable c → reliable (answered new table c).
Proof. done. Qed.

Lemma broadcastTo_reliable (cert n : string) (c : Cluster) :
  reliable c → fst (broadcastTo cert n c) = true.
Proof.
  intros Hrel. kube_unfold. rewrite (Hrel (length (requests c))).
  destruct (ConfigMaps c !! n) as [cm|] eqn:Hcm; simpl.
  - destruct (String.eqb (index (ConfigMapData cm) "ca.crt") cert); simpl; [done|].
    by rewrite (Hrel (S (length (requests c)))), Hcm.
  - rewrite (Hrel (S (length (requests c)))), Hcm. simpl.
    by rewrite index_insert, String.eqb_refl.
Qed.

Lemma rangeItems_reliable (cert : string) (items : list string) (c : Cluster) :
  reliable c → fst (rangeItems cert items c) = true.
Proof.
  revert c. induction items as [|m rest IH]; intros c Hrel; [done|].
  rewrite rangeItems_cons.
  destruct (String.eqb m "kube-system"); [by apply IH|].
  rewrite (broadcastTo_reliable cert m c Hrel).
  apply IH. destruct (broadcastTo_answered cert m c) as (new & table & -> & _).
  by apply answered_reliable.
Qed.

Lemma UpdateAuthorityPublicKey_reliable (cert : string) (c : Cluster) :
  reliable c → fst (UpdateAuthorityPublicKey cert c) = true.
Proof.
  intros Hrel. rewrite UpdateAuthorityPublicKey_unfold.
  unfold lost. rewrite Hrel.
  by apply rangeItems_reliable.
Qed.

(** X7: a broadcast that returns [true] has left the cert PEM in the trust
    record of every listed namespace other than [kube-system], whatever
    requests were lost on the way; and on a cluster that answers every
    request and whose trust records carry data a broadcast does return
    [true]. *)
Theorem UpdateAuthorityPublicKey_converges (cert : string) (c : Cluster) :
  (fst (UpdateAuthorityPublicKey cert c) = true →
   ∀ n, n ∈ Namespaces c → n ≠ "kube-system" →
        trusts cert n (snd (UpdateAuthorityPublicKey cert c)))
  ∧ (reliable c → configMapsCarryData c →
     fst (UpdateAuthorityPublicKey cert c) = true).
Proof.
  split.
  - intros Hok n Hin Hsys. by apply UpdateAuthorityPublicKey_true.
  - intros Hrel _. by apply UpdateAuthorityPublicKey_reliable.
Qed.

Lemma UpdateAuthorityPublicKey_converges_witness :
  reliable Cases.annotated
  ∧ configMapsCarryData Cases.annotated
  ∧ ("apps" ∈ Namespaces Cases.annotated)
  ∧ ("apps" ≠ "kube-system")
  ∧ trusts "CA-NEW" "apps" (snd (UpdateAuthorityPublicKey "CA-NEW" Cases.annotated)).
Proof.
  assert (Hrel : reliable Cases.annotated) by (intros i; reflexivity).
  assert (Hdata : configMapsCarryData Cases.annotated).
  { apply map_Forall_insert_2; [apply insert_non_empty|apply map_Forall_empty]. }
  assert (Hin : "apps" ∈ Namespaces Cases.annotated).
  { apply list_elem_of_In. simpl. tauto. }
  assert (Hsys : "apps" ≠ "kube-system") by discriminate.
  split; [exact Hrel|]. split; [exact Hdata|]. split; [exact Hin|]. split; [exact Hsys|].
  destruct (UpdateAuthorityPublicKey_converges "CA-NEW" Cases.annotated)
    as [Hsound Hcomplete].
  exact (Hsound (Hcomplete Hrel Hdata) "apps" Hin Hsys).
Defined.

(** *** [UpdateAuthorityPublicKey]: overwriting, counting, stopping *)

Lemma broadcastTo_agree (cert m n : string) (c : Cluster) (cm : ConfigMap) :
  (∃ cm', ConfigMaps c !! n = Some cm' ∧ configMapsAgreeOff ["ca.crt"] cm cm') →
  ∃ cm', ConfigMaps (snd (broadcastTo cert m c)) !! n = Some cm'
         ∧ configMapsAgreeOff ["ca.crt"] cm cm'.
Proof.
  intros (cm0 & Hcm0 & Hname & Hdata).
  destruct (decide (m = n)) as [->|Hne].
  - destruct (broadcastTo_outcome cert n c)
      as [cm1 H1 H2|e H1|cm1 H1 H2|e e'|cm1 e H1 H2]; simpl;
      try (exists cm0; by repeat split).
    + congruence.
    + simplify_eq. eexists. rewrite lookup_insert_eq. split; [done|].
      split; [done|]. intros k Hk. simpl.
      rewrite lookup_insert_ne; [by apply Hdata|].
      intros <-. apply Hk. set_solver.
  - destruct (broadcastTo_frame cert m n c Hne) as [-> _].
    exists cm0. by repeat split.
Qed.

Lemma rangeItems_agree (cert n : string) (items : list string) (c : Cluster)
    (cm : ConfigMap) :
  (∃ cm', ConfigMaps c !! n = Some cm' ∧ configMapsAgreeOff ["ca.crt"] cm cm') →
  ∃ cm', ConfigMaps (snd (rangeItems cert items c)) !! n = Some cm'
         ∧ configMapsAgreeOff ["ca.crt"] cm cm'.
Proof.
  revert c. induction items as [|m rest IH]; intros c Hc; [done|].
  rewrite rangeItems_cons.
  destruct (String.eqb m "kube-system"); [by apply IH|].
  pose proof (broadcastTo_agree cert m n c cm Hc) as Hturn.
  destruct (fst (broadcastTo cert m c)); simpl; [by apply IH|done].
Qed.

(** X8: a broadcast never deletes a trust record, and an overwrite keeps
    the name of the record and every entry of its data other than
    [ca.crt]. *)
Theorem UpdateAuthorityPublicKey_keeps_other_entries (cert n : string) (c : Cluster)
    (cm : ConfigMap) :
  ConfigMaps c !! n = Some cm →
  ∃ cm', ConfigMaps (snd (UpdateAuthorityPublicKey cert c)) !! n = Some cm'
         ∧ configMapsAgreeOff ["ca.crt"] cm cm'.
Proof.
  intros Hcm. rewrite UpdateAuthorityPublicKey_unfold.
  destruct (lost c); [exists cm; by repeat split|].
  apply rangeItems_agree. exists cm. by repeat split.
Qed.

Lemma UpdateAuthorityPublicKey_keeps_other_entries_witness :
  ∃ cm', ConfigMaps (snd (UpdateAuthorityPublicKey "CA-NEW" Cases.annotated)) !! "apps"
         = Some cm'
         ∧ ConfigMapData cm' !! "owner" = Some "ops"
         ∧ index (ConfigMapData cm') "ca.crt" = "CA-NEW".
Proof.
  destruct (UpdateAuthorityPublicKey_keeps_other_entries "CA-NEW" "apps" Cases.annotated
              (mkConfigMap "dubbo-ca-cert"
                 (<["owner" := "ops"]> (<["ca.crt" := "CA-OLD"]> ∅)))
              eq_refl) as (cm' & Hcm' & _ & Hother).
  exists cm'. split; [exact Hcm'|]. split.
  - rewrite (Hother "owner"); [reflexivity|].
    intros Hin. apply elem_of_cons in Hin as [Hin|Hin]; [discriminate|].
    by apply elem_of_nil in Hin.
  - vm_compute in Hcm'. by simplify_eq.
Defined.

Lemma broadcastTo_length (cert n : string) (c : Cluster) :
  (length (requests (snd (broadcastTo cert n c))) ≤ 2 + length (requests c))%nat.
Proof. destruct (broadcastTo_outcome cert n c); simpl; lia. Qed.

Lemma rangeItems_length (cert : string) (items : list string) (c : Cluster) :
  (length (requests (snd (rangeItems cert items c)))
   ≤ 2 * length items + length (requests c))%nat.
Proof.
  revert c. induction items as [|m rest IH]; intros c; [simpl; lia|].
  rewrite rangeItems_cons.
  pose proof (broadcastTo_length cert m c) as Hturn.
  destruct (String.eqb m "kube-system").
  - specialize (IH c). simpl length. lia.
  - destruct (fst (broadcastTo cert m c)); simpl.
    + specialize (IH (snd (broadcastTo cert m c))). lia.
    + lia.
Qed.

(** X9: a broadcast sends at most one listing and two requests per listed
    namespace. *)
Theorem UpdateAuthorityPublicKey_request_bound (cert : string) (c : Cluster) :
  (length (requests (snd (UpdateAuthorityPublicKey cert c)))
   ≤ 1 + 2 * length (Namespaces c) + length (requests c))%nat.
Proof.
  rewrite UpdateAuthorityPublicKey_unfold. destruct (lost c); [simpl; lia|].
  pose proof (rangeItems_length cert (Namespaces c)
                (logged VList RNamespaces "" None c)) as H.
  simpl in H. lia.
Qed.

Lemma broadcastTo_failed (cert n : string) (c : Cluster) :
  fst (broadcastTo cert n c) = false →
  ConfigMaps (snd (broadcastTo cert n c)) = ConfigMaps c.
Proof. by destruct (broadcastTo_outcome cert n c). Qed.

(** X10: when a broadcast stops at a namespace whose create or update
    failed, the namespaces it went through before keep what they got: each
    of them (other than [kube-system]) carries the cert PEM in the cluster
    the call leaves. *)
Theorem UpdateAuthorityPublicKey_partial (cert : string) (c : Cluster)
    (pre post : list string) (n : string) (c1 c2 : Cluster) :
  lost c = false →
  Namespaces c = pre ++ n :: post →
  n ≠ "kube-system" →
  rangeItems cert pre (logged VList RNamespaces "" None c) = (true, c1) →
  broadcastTo cert n c1 = (false, c2) →
  ∀ m, m ∈ pre → m ≠ "kube-system" →
       trusts cert m (snd (UpdateAuthorityPublicKey cert c)).
Proof.
  intros Hlist Hns Hn Hpre Hfail m Hm Hsys.
  rewrite UpdateAuthorityPublicKey_unfold, Hlist, Hns.
  rewrite (rangeItems_stop cert n pre post _ c1 c2 Hpre Hn Hfail). simpl.
  pose proof (rangeItems_true cert m pre (logged VList RNamespaces "" None c)) as Ht.
  rewrite Hpre in Ht. specialize (Ht eq_refl Hm Hsys). simpl in Ht.
  pose proof (broadcastTo_failed cert n c1) as Hsame.
  rewrite Hfail in Hsame. specialize (Hsame eq_refl). simpl in Hsame.
  apply (trusts_lookup cert m c1 c2); [by rewrite Hsame|done].
Qed.

Lemma UpdateAuthorityPublicKey_partial_witness :
  fst (UpdateAuthorityPublicKey "NEW" Cases.halfway) = false
  ∧ trusts "NEW" "alpha" (snd (UpdateAuthorityPublicKey "NEW" Cases.halfway))
  ∧ ¬ trusts "NEW" "gamma" (snd (UpdateAuthorityPublicKey "NEW" Cases.halfway)).
Proof.
  split; [reflexivity|]. split.
  - refine (UpdateAuthorityPublicKey_partial "NEW" Cases.halfway
              ["alpha"] ["gamma"] "beta"
              (snd (rangeItems "NEW" ["alpha"]
                      (logged VList RNamespaces "" None Cases.halfway)))
              (snd (broadcastTo "NEW" "beta"
                      (snd (rangeItems "NEW" ["alpha"]
                              (logged VList RNamespaces "" None Cases.halfway)))))
              eq_refl eq_refl _ eq_refl eq_refl "alpha" _ _).
    + discriminate.
    + apply list_elem_of_In. simpl. tauto.
    + discriminate.
  - intros (cm & Hcm & Hpem). vm_compute in Hcm. by simplify_eq.
Defined.

(** *** [VerifyServiceAccount] *)

(** X11: [VerifyServiceAccount] accepts a token exactly when the review
    came back without an error and its status carries no error text; the
    [Authenticated] flag of the status plays no part in the verdict. *)
Theorem VerifyServiceAccount_verdict (create : string → Status * option error)
    (token : string) :
  (VerifyServiceAccount create token = true
   ↔ snd (create token) = None ∧ Error (fst (create token)) = "")
  ∧ ∀ b, VerifyServiceAccount
           (fun t => (withAuthenticated b (fst (create t)), snd (create t))) token
         = VerifyServiceAccount create token.
Proof.
  unfold VerifyServiceAccount. split.
  - destruct (create token) as [status [e|]]; simpl; [by split; [|intros []]|].
    destruct (String.eqb_spec (Error status) ""); simpl; split; try done.
    by intros [_ ?].
  - intros b. destruct (create token) as [status [e|]]; done.
Qed.

(* ===================================================================== *)
(** ** More on the server                                                 *)
(* ===================================================================== *)

Section Lifecycle.

Context {X509 Key : Type} (crypto : CryptoProvider X509 Key).

Lemma RefreshAuthorityCert_frame (s : Server X509 Key) :
  RootCert (CertStorage (RefreshAuthorityCert crypto s)) = RootCert (CertStorage s)
  ∧ Opts (RefreshAuthorityCert crypto s) = Opts s
  ∧ StopChan (RefreshAuthorityCert crypto s) = StopChan s.
Proof.
  unfold RefreshAuthorityCert.
  destruct (IsValid crypto (Now s) (AuthorityCert (CertStorage s))); by server_unfold.
Qed.

Lemma step_frame (l l' : Loop X509 Key) (a : Label) :
  step crypto l a l' →
  RootCert (CertStorage (server l')) = RootCert (CertStorage (server l))
  ∧ Opts (server l') = Opts (server l).
Proof.
  intros Hstep. destruct Hstep; simpl; try done.
  - unfold refreshCheck.
    destruct (NeedRefresh crypto (Now s) (AuthorityCert (CertStorage s)));
      by server_unfold.
  - unfold notify. by destruct (StopChan s).
Qed.

Lemma steps_frame (l l' : Loop X509 Key) (tr : list Label) :
  steps crypto l tr l' →
  RootCert (CertStorage (server l')) = RootCert (CertStorage (server l))
  ∧ Opts (server l') = Opts (server l).
Proof.
  induction 1 as [|l1 a l2 tr l3 Hstep _ [IH1 IH2]]; [done|].
  destruct (step_frame l1 l2 a Hstep) as [H1 H2]. by rewrite IH1, IH2.
Qed.

(** X12: from bootstrap on, wherever the loop stands and whatever it
    rotated, the trusted certs are those of before bootstrap followed by the
    cert bootstrap ended with: that cert stays trusted, nothing is ever
    removed, and nothing is added either.  The root cert and the options
    stay what they were. *)
Theorem TrustedCert_along_runs (s : Server X509 Key) (tr : list Label)
    (l : Loop X509 Key) :
  steps crypto (enter (RefreshAuthorityCert crypto s)) tr l →
  TrustedCert (CertStorage (server l))
  = TrustedCert (CertStorage s)
    ++ [AuthorityCert (CertStorage (RefreshAuthorityCert crypto s))]
  ∧ AuthorityCert (CertStorage (RefreshAuthorityCert crypto s))
    ∈ TrustedCert (CertStorage (server l))
  ∧ RootCert (CertStorage (server l)) = RootCert (CertStorage s)
  ∧ Opts (server l) = Opts s.
Proof.
  intros Hrun.
  assert (Ht : TrustedCert (CertStorage (server l))
               = TrustedCert (CertStorage s)
                 ++ [AuthorityCert (CertStorage (RefreshAuthorityCert crypto s))]).
  { rewrite (steps_TrustedCert _ _ _ _ Hrun). simpl.
    apply RefreshAuthorityCert_trusted. }
  destruct (steps_frame _ _ _ Hrun) as [Hroot Hopts]. cbn [server enter] in Hroot, Hopts.
  destruct (RefreshAuthorityCert_frame s) as (Hroot' & Hopts' & _).
  split; [exact Ht|]. split.
  - rewrite Ht. apply elem_of_app. right. by apply list_elem_of_singleton.
  - by rewrite Hroot, Hopts, Hroot', Hopts'.
Qed.

(** *** Persisting and broadcasting *)

Lemma secretCalls_none (new : list Request) :
  secretCalls new = [] → Forall (fun r => resource r ≠ RSecrets) new.
Proof.
  unfold secretCalls. induction new as [|r new IH]; [constructor|]. simpl.
  destruct (bool_decide_reflect (resource r = RSecrets)); [done|].
  intros Hnew. constructor; [done|by apply IH].
Qed.

Lemma UpdateAuthorityPublicKey_log (cert : string) (c : Cluster) :
  ∃ new table, snd (UpdateAuthorityPublicKey cert c) = answered new table c
               ∧ new ≠ [] ∧ Forall (fun r => resource r ≠ RSecrets) new.
Proof.
  rewrite UpdateAuthorityPublicKey_unfold. destruct (lost c).
  - exists [mkRequest VList RNamespaces "" (Some Unavailable)], (ConfigMaps c).
    split; [done|]. split; [done|]. by repeat constructor.
  - destruct (rangeItems_answered cert (Namespaces c)
                (logged VList RNamespaces "" None c)) as (new & t & Hc & Hs).
    exists (new ++ [mkRequest VList RNamespaces "" None]), t.
    rewrite Hc. unfold answered, logged. simpl. rewrite <- app_assoc.
    split; [done|]. split; [by destruct new|].
    apply Forall_app. split; [by apply secretCalls_none|by repeat constructor].
Qed.

Lemma UpdateAuthorityCert_log (cert pri ns : string) (c : Cluster) :
  ∃ new table, snd (UpdateAuthorityCert cert pri ns c) = persisted new table c
               ∧ new ≠ [] ∧ Forall (fun r => resource r = RSecrets) new.
Proof.
  destruct (UpdateAuthorityCert_outcome cert pri ns c);
    eexists _, _; (split; [reflexivity|]); (split; [done|]); by repeat constructor.
Qed.

(** X13: a rotation, like a bootstrap that has to generate, writes to the
    cluster in this order: first the requests for the secret, all of them,
    then the requests of the broadcast -- the secret is never touched after
    the first namespace has been asked for. *)
Theorem persist_before_broadcast (s : Server X509 Key) :
  let persisted_then_broadcast s' :=
    ∃ cm sec, requests (KubeClient s') = cm ++ sec ++ requests (KubeClient s)
              ∧ sec ≠ [] ∧ Forall (fun r => resource r = RSecrets) sec
              ∧ cm ≠ [] ∧ Forall (fun r => resource r ≠ RSecrets) cm in
  (NeedRefresh crypto (Now s) (AuthorityCert (CertStorage s)) = true →
   persisted_then_broadcast (refreshCheck crypto s))
  ∧ (IsValid crypto (Now s) (AuthorityCert (CertStorage s)) = false →
     persisted_then_broadcast (RefreshAuthorityCert crypto s)).
Proof.
  cbv zeta.
  assert (Hseq : ∃ cm sec,
             requests (KubeClient (publish (persist crypto (generate crypto s))))
             = cm ++ sec ++ requests (KubeClient s)
             ∧ sec ≠ [] ∧ Forall (fun r => resource r = RSecrets) sec
             ∧ cm ≠ [] ∧ Forall (fun r => resource r ≠ RSecrets) cm).
  { server_unfold.
    match goal with
    | |- context [UpdateAuthorityPublicKey ?pem (snd (UpdateAuthorityCert ?a ?b ?n ?k))] =>
        destruct (UpdateAuthorityCert_log a b n k) as (sec & t1 & Hc1 & Hsec & Hall1);
        destruct (UpdateAuthorityPublicKey_log pem (snd (UpdateAuthorityCert a b n k)))
          as (cm & t2 & Hc2 & Hcm & Hall2)
    end.
    exists cm, sec. rewrite Hc2. simpl. rewrite Hc1. simpl. done. }
  split; intros Hcond.
  - unfold refreshCheck. by rewrite Hcond.
  - rewrite (RefreshAuthorityCert_invalid crypto s Hcond). exact Hseq.
Qed.

End Lifecycle.

Lemma persist_before_broadcast_witness :
  NeedRefresh Scenario.provider (Now (sleep 5000 (RefreshAuthorityCert Scenario.provider
                                                    Scenario.restarted)))
    (AuthorityCert (CertStorage (RefreshAuthorityCert Scenario.provider
                                   Scenario.restarted))) = true
  ∧ ∃ cm sec,
      requests (KubeClient (refreshCheck Scenario.provider
                              (sleep 5000 (RefreshAuthorityCert Scenario.provider
                                             Scenario.restarted))))
      = cm ++ sec
        ++ requests (KubeClient (sleep 5000 (RefreshAuthorityCert Scenario.provider
                                               Scenario.restarted)))
      ∧ sec ≠ [] ∧ Forall (fun r => resource r = RSecrets) sec
      ∧ cm ≠ [] ∧ Forall (fun r => resource r ≠ RSecrets) cm.
Proof.
  split; [reflexivity|].
  exact (proj1 (persist_before_broadcast Scenario.provider
                  (sleep 5000 (RefreshAuthorityCert Scenario.provider
                                 Scenario.restarted))) eq_refl).
Defined.

Lemma TrustedCert_along_runs_witness :
  ∃ l, steps Scenario.provider
         (enter (RefreshAuthorityCert Scenario.provider Scenario.restarted))
         [LSleep; LRefresh] l
       ∧ TrustedCert (CertStorage (server l)) = [Scenario.loaded]
       ∧ Scenario.loaded ∈ TrustedCert (CertStorage (server l)).
Proof.
  eexists. split.
  - eapply steps_cons; [apply step_sleep|].
    eapply steps_cons; [apply step_refresh|]. apply steps_nil.
  - split.
    + refine (proj1 (TrustedCert_along_runs Scenario.provider Scenario.restarted
                       [LSleep; LRefresh] _ _)).
      eapply steps_cons; [apply step_sleep|].
      eapply steps_cons; [apply step_refresh|]. apply steps_nil.
    + refine (proj1 (proj2 (TrustedCert_along_runs Scenario.provider Scenario.restarted
                              [LSleep; LRefresh] _ _))).
      eapply steps_cons; [apply step_sleep|].
      eapply steps_cons; [apply step_refresh|]. apply steps_nil.
Defined.

Section Consistency.

Context {X509 Key : Type} (crypto : CryptoProvider X509 Key).

Lemma publish_trusts (s : Server X509 Key) (n : string) :
  reliable (KubeClient s) →
  n ∈ Namespaces (KubeClient s) → n ≠ "kube-system" →
  trusts (CertPem (AuthorityCert (CertStorage s))) n (KubeClient (publish s)).
Proof.
  intros Hrel Hin Hsys. unfold publish, withKubeClient. simpl.
  apply UpdateAuthorityPublicKey_true; [|done|done].
  by apply UpdateAuthorityPublicKey_reliable.
Qed.

Lemma persist_reliable (s : Server X509 Key) :
  reliable (KubeClient s) →
  reliable (KubeClient (persist crypto s))
  ∧ Namespaces (KubeClient (persist crypto s)) = Namespaces (KubeClient s).
Proof.
  intros Hrel. unfold persist, withKubeClient. simpl.
  destruct (UpdateAuthorityCert_outage
              (CertPem (AuthorityCert (CertStorage s)))
              (EncodePri crypto (PrivateKey (AuthorityCert (CertStorage s))))
              (Namespace (Opts s)) (KubeClient s)) as (Hout & Hns & _).
  split; [|done]. intros i. by rewrite Hout.
Qed.

(** Generate, persist, broadcast on a cluster that answers: the secret and
    every listed namespace end up with the generated cert. *)
Lemma rotate_consistent (s : Server X509 Key) :
  reliable (KubeClient s) →
  let s' := publish (persist crypto (generate crypto s)) in
  let a := GenerateAuthorityCert crypto (Entropy s) (Now s)
             (RootCert (CertStorage s)) (CaValidity (Opts s)) in
  AuthorityCert (CertStorage s') = a
  ∧ (∃ sec, Secrets (KubeClient s') !! Namespace (Opts s) = Some sec
            ∧ index (SecretData sec) "cert.pem" = CertPem a
            ∧ index (SecretData sec) "pri.pem" = EncodePri crypto (PrivateKey a))
  ∧ ∀ n, n ∈ Namespaces (KubeClient s) → n ≠ "kube-system" →
         trusts (CertPem a) n (KubeClient s').
Proof.
  intros Hrel. cbv zeta. split; [done|]. split.
  - unfold publish, withKubeClient. simpl.
    rewrite (proj1 (UpdateAuthorityPublicKey_secrets _ _)).
    by apply UpdateAuthorityCert_stored.
  - intros n Hin Hsys.
    destruct (persist_reliable (generate crypto s)) as [Hrel' Hns]; [done|].
    apply (publish_trusts (persist crypto (generate crypto s)) n); [done| |done].
    by rewrite Hns.
Qed.

(** X14: after a rotation on a cluster that answers every request and
    whose records carry data, memory and cluster agree: the secret of the
    CA's namespace holds the PEM and the encoded key of the cert now in
    memory, and the trust record of every listed namespace other than
    [kube-system] holds its PEM. *)
Theorem rotation_consistent (s : Server X509 Key) :
  reliable (KubeClient s) →
  secretCarriesData (Namespace (Opts s)) (KubeClient s) →
  configMapsCarryData (KubeClient s) →
  NeedRefresh crypto (Now s) (AuthorityCert (CertStorage s)) = true →
  let s' := refreshCheck crypto s in
  let a := AuthorityCert (CertStorage s') in
  a = GenerateAuthorityCert crypto (Entropy s) (Now s)
        (RootCert (CertStorage s)) (CaValidity (Opts s))
  ∧ (∃ sec, Secrets (KubeClient s') !! Namespace (Opts s) = Some sec
            ∧ index (SecretData sec) "cert.pem" = CertPem a
            ∧ index (SecretData sec) "pri.pem" = EncodePri crypto (PrivateKey a))
  ∧ ∀ n, n ∈ Namespaces (KubeClient s) → n ≠ "kube-system" →
         trusts (CertPem a) n (KubeClient s').
Proof.
  intros Hrel _ _ Hneed. cbv zeta. unfold refreshCheck. rewrite Hneed.
  by apply rotate_consistent.
Qed.

(** X15: after bootstrap on a cluster that answers every request and whose
    records carry data, the trust record of every listed namespace other
    than [kube-system] holds the PEM of the authority cert in memory,
    whether that cert was kept or generated. *)
Theorem bootstrap_publishes (s : Server X509 Key) (n : string) :
  reliable (KubeClient s) →
  secretCarriesData (Namespace (Opts s)) (KubeClient s) →
  configMapsCarryData (KubeClient s) →
  n ∈ Namespaces (KubeClient s) → n ≠ "kube-system" →
  trusts (CertPem (AuthorityCert (CertStorage (RefreshAuthorityCert crypto s)))) n
    (KubeClient (RefreshAuthorityCert crypto s)).
Proof.
  intros Hrel _ _ Hin Hsys. unfold RefreshAuthorityCert.
  destruct (IsValid crypto (Now s) (AuthorityCert (CertStorage s))).
  - change (trusts (CertPem (AuthorityCert (CertStorage s))) n (KubeClient (publish s))).
    by apply publish_trusts.
  - destruct (rotate_consistent s Hrel) as (_ & _ & Hall).
    exact (Hall n Hin Hsys).
Qed.

End Consistency.

Lemma rotation_consistent_witness :
  let s := sleep 5000 (RefreshAuthorityCert Scenario.provider Scenario.restarted) in
  reliable (KubeClient s)
  ∧ secretCarriesData "mesh" (KubeClient s)
  ∧ configMapsCarryData (KubeClient s)
  ∧ NeedRefresh Scenario.provider (Now s) (AuthorityCert (CertStorage s)) = true
  ∧ ∃ sec, Secrets (KubeClient (refreshCheck Scenario.provider s)) !! "mesh" = Some sec
           ∧ index (SecretData sec) "cert.pem" = "CA-"
           ∧ index (SecretData sec) "pri.pem" = "KEY-".
Proof.
  intros s.
  assert (Hrel : reliable (KubeClient s)) by (intros i; reflexivity).
  assert (Hsec : secretCarriesData "mesh" (KubeClient s)).
  { intros sec Hsec. injection Hsec as <-. apply insert_non_empty. }
  assert (Hcms : configMapsCarryData (KubeClient s)).
  { apply (UpdateAuthorityPublicKey_carries_data "CA-LOADED" Scenario.stored).
    apply map_Forall_empty. }
  split; [exact Hrel|]. split; [exact Hsec|]. split; [exact Hcms|].
  split; [reflexivity|].
  exact (proj1 (proj2 (rotation_consistent Scenario.provider s Hrel Hsec Hcms eq_refl))).
Defined.

Lemma bootstrap_publishes_witness :
  reliable (KubeClient Scenario.restarted)
  ∧ secretCarriesData "mesh" (KubeClient Scenario.restarted)
  ∧ configMapsCarryData (KubeClient Scenario.restarted)
  ∧ ("apps" ∈ Namespaces (KubeClient Scenario.restarted))
  ∧ ("apps" ≠ "kube-system")
  ∧ trusts "CA-LOADED" "apps"
      (KubeClient (RefreshAuthorityCert Scenario.provider Scenario.restarted)).
Proof.
  assert (Hrel : reliable (KubeClient Scenario.restarted)) by (intros i; reflexivity).
  assert (Hsec : secretCarriesData "mesh" (KubeClient Scenario.restarted)).
  { intros sec Hsec. injection Hsec as <-. apply insert_non_empty. }
  assert (Hcms : configMapsCarryData (KubeClient Scenario.restarted))
    by apply map_Forall_empty.
  assert (Hin : "apps" ∈ Namespaces (KubeClient Scenario.restarted)).
  { apply list_elem_of_In. simpl. tauto. }
  assert (Hsys : "apps" ≠ "kube-system") by discriminate.
  split; [exact Hrel|]. split; [exact Hsec|]. split; [exact Hcms|].
  split; [exact Hin|]. split; [exact Hsys|].
  exact (bootstrap_publishes Scenario.provider Scenario.restarted "apps"
           Hrel Hsec Hcms Hin Hsys).
Defined.

(** *** Start-up *)

Section StartUp.

Context {X509 Key : Type} (crypto : CryptoProvider X509 Key).

(** Without both strings nothing is decoded. *)
Lemma LoadAuthorityCert_skips (s : Server X509 Key) :
  fst (fst (GetAuthorityCert (Namespace (Opts s)) (KubeClient s))) = ""
  ∨ snd (fst (GetAuthorityCert (Namespace (Opts s)) (KubeClient s))) = "" →
  LoadAuthorityCert crypto s
  = RefreshAuthorityCert crypto
      (withKubeClient (snd (GetAuthorityCert (Namespace (Opts s)) (KubeClient s))) s).
Proof.
  intros Hget. unfold LoadAuthorityCert.
  destruct (GetAuthorityCert (Namespace (Opts s)) (KubeClient s)) as [[certStr priStr] k].
  simpl in Hget. simpl snd.
  destruct Hget as [-> | ->]; simpl; [done|].
  by rewrite andb_false_r.
Qed.

(** X16: at start-up a secret that cannot be read in full is ignored: when
    the [Get] is lost, the secret is absent, or it lacks the cert PEM or the
    private-key PEM, [LoadAuthorityCert] decodes nothing and bootstrap runs
    on the authority cert as it was in memory. *)
Theorem LoadAuthorityCert_incomplete (s : Server X509 Key) :
  lost (KubeClient s) = true
  ∨ Secrets (KubeClient s) !! Namespace (Opts s) = None
  ∨ (∃ sec, Secrets (KubeClient s) !! Namespace (Opts s) = Some sec
            ∧ (index (SecretData sec) "cert.pem" = ""
               ∨ index (SecretData sec) "pri.pem" = "")) →
  LoadAuthorityCert crypto s
  = RefreshAuthorityCert crypto
      (withKubeClient (snd (GetAuthorityCert (Namespace (Opts s)) (KubeClient s))) s).
Proof.
  intros Hcase. apply LoadAuthorityCert_skips.
  unfold GetAuthorityCert, bind, ret, SecretsGet.
  destruct Hcase as [Hlost|[Habs|(sec & Hsec & Hempty)]].
  - rewrite Hlost. by left.
  - destruct (lost (KubeClient s)); [by left|]. rewrite Habs. by left.
  - destruct (lost (KubeClient s)); [by left|]. rewrite Hsec. simpl. exact Hempty.
Qed.

Lemma UpdateAuthorityCert_stored_at (cert pri ns : string) (c : Cluster) :
  outage c (length (requests c)) = false →
  outage c (S (length (requests c))) = false →
  ∃ s, Secrets (snd (UpdateAuthorityCert cert pri ns c)) !! ns = Some s
       ∧ index (SecretData s) "cert.pem" = cert
       ∧ index (SecretData s) "pri.pem" = pri.
Proof.
  intros H0 H1. kube_unfold. rewrite H0.
  destruct (Secrets c !! ns) as [s|] eqn:Hs; simpl.
  - destruct (String.eqb (index (SecretData s) "cert.pem") cert
              && String.eqb (index (SecretData s) "pri.pem") pri) eqn:Hsame; simpl.
    + exists s. apply andb_prop in Hsame as [Hc Hp].
      apply String.eqb_eq in Hc, Hp. done.
    + rewrite H1, Hs. simpl. eexists. rewrite lookup_insert_eq. split; [done|]. simpl.
      by rewrite index_insert_ne, !index_insert.
  - rewrite H1, Hs. simpl. rewrite fresh_secret_matches. simpl.
    eexists. rewrite lookup_insert_eq. split; [done|]. simpl.
    by rewrite index_insert_ne, !index_insert.
Qed.

(** X17: a read lost at start-up costs the stored secret: with nothing
    valid in memory, [LoadAuthorityCert] takes the secret for missing,
    bootstrap generates a cert, and once the cluster answers again the
    secret that was there, a record with data, is overwritten with the
    generated one. *)
Theorem LoadAuthorityCert_lost_read (s : Server X509 Key) (sec : Secret) :
  lost (KubeClient s) = true →
  (∀ i, (length (requests (KubeClient s)) < i)%nat → outage (KubeClient s) i = false) →
  Secrets (KubeClient s) !! Namespace (Opts s) = Some sec →
  SecretData sec ≠ ∅ →
  IsValid crypto (Now s) (AuthorityCert (CertStorage s)) = false →
  let s' := LoadAuthorityCert crypto s in
  let a := GenerateAuthorityCert crypto (Entropy s) (Now s)
             (RootCert (CertStorage s)) (CaValidity (Opts s)) in
  AuthorityCert (CertStorage s') = a
  ∧ ∃ sec', Secrets (KubeClient s') !! Namespace (Opts s) = Some sec'
            ∧ index (SecretData sec') "cert.pem" = CertPem a
            ∧ index (SecretData sec') "pri.pem" = EncodePri crypto (PrivateKey a).
Proof.
  intros Hlost Hlater Hsec _ Hinvalid. cbv zeta.
  assert (Hget : GetAuthorityCert (Namespace (Opts s)) (KubeClient s)
                 = (("", ""),
                    logged VGet RSecrets (Namespace (Opts s)) (Some Unavailable)
                      (KubeClient s))).
  { unfold GetAuthorityCert, bind, ret, SecretsGet. by rewrite Hlost. }
  rewrite LoadAuthorityCert_skips by (rewrite Hget; by left).
  rewrite Hget. simpl snd.
  rewrite RefreshAuthorityCert_invalid by done.
  server_unfold. split; [done|].
  rewrite (proj1 (UpdateAuthorityPublicKey_secrets _ _)).
  apply UpdateAuthorityCert_stored_at; simpl; apply Hlater; lia.
Qed.

End StartUp.

Lemma LoadAuthorityCert_incomplete_witness :
  Secrets (KubeClient Scenario.firstStart) !! Namespace (Opts Scenario.firstStart) = None
  ∧ LoadAuthorityCert Scenario.provider Scenario.firstStart
    = RefreshAuthorityCert Scenario.provider
        (withKubeClient
           (snd (GetAuthorityCert "mesh" (KubeClient Scenario.firstStart)))
           Scenario.firstStart).
Proof.
  split; [reflexivity|].
  exact (LoadAuthorityCert_incomplete Scenario.provider Scenario.firstStart
           (or_intror (or_introl eq_refl))).
Defined.

Lemma LoadAuthorityCert_lost_read_witness :
  lost (KubeClient Cases.unlucky) = true
  ∧ IsValid Scenario.provider (Now Cases.unlucky)
      (AuthorityCert (CertStorage Cases.unlucky)) = false
  ∧ Secrets (KubeClient Cases.unlucky) !! "mesh"
    = Some (mkSecret "dubbo-ca-secret"
              (<["pri.pem" := "KEY-IIIIIII"]> (<["cert.pem" := "CA-LOADED"]> ∅)))
  ∧ <["pri.pem" := "KEY-IIIIIII"]> (<["cert.pem" := "CA-LOADED"]> ∅)
    ≠ (∅ : gmap string string)
  ∧ ∃ sec', Secrets (KubeClient (LoadAuthorityCert Scenario.provider Cases.unlucky))
              !! "mesh" = Some sec'
            ∧ index (SecretData sec') "cert.pem" = "CA-".
Proof.
  assert (Hdata : <["pri.pem" := "KEY-IIIIIII"]> (<["cert.pem" := "CA-LOADED"]> ∅)
                  ≠ (∅ : gmap string string)) by apply insert_non_empty.
  split; [reflexivity|]. split; [reflexivity|]. split; [reflexivity|].
  split; [exact Hdata|].
  destruct (LoadAuthorityCert_lost_read Scenario.provider Cases.unlucky
              (mkSecret "dubbo-ca-secret"
                 (<["pri.pem" := "KEY-IIIIIII"]> (<["cert.pem" := "CA-LOADED"]> ∅))))
    as (_ & sec' & Hsec' & Hcert & _).
  - reflexivity.
  - intros i Hi. destruct i as [|i]; [simpl in Hi; lia|reflexivity].
  - reflexivity.
  - exact Hdata.
  - reflexivity.
  - exists sec'. split; [exact Hsec'|exact Hcert].
Defined.

Lemma LoadAuthorityCert_stored_witness :
  let s := withKubeClient Scenario.stored Scenario.firstStart in
  lost (KubeClient s) = false
  ∧ AuthorityCert (CertStorage (LoadAuthorityCert Scenario.provider s)) = Scenario.loaded
  ∧ Secrets (KubeClient (LoadAuthorityCert Scenario.provider s)) = Secrets (KubeClient s).
Proof.
  intros s. split; [reflexivity|].
  destruct (LoadAuthorityCert_stored Scenario.provider s
              (mkSecret "dubbo-ca-secret"
                 (<["pri.pem" := "KEY-IIIIIII"]> (<["cert.pem" := "CA-LOADED"]> ∅))))
    as (Ha & Hs & _).
  - reflexivity.
  - reflexivity.
  - discriminate.
  - discriminate.
  - reflexivity.
  - split; [exact Ha|exact Hs].
Defined.

Lemma ScheduleRefreshAuthorityCert_returns_witness :
  StopChan Scenario.firstStart = []
  ∧ Cases.lateSignal 2 ≠ []
  ∧ ∃ s', ScheduleRefreshAuthorityCert Scenario.provider 5 Cases.lateSignal
            Scenario.firstStart = Some (3%nat, s').
Proof.
  assert (Hsig : Cases.lateSignal 2 ≠ []) by discriminate.
  split; [reflexivity|]. split; [exact Hsig|].
  refine (ScheduleRefreshAuthorityCert_returns Scenario.provider 2 5 Cases.lateSignal
            Scenario.firstStart eq_refl _ Hsig _).
  - intros m Hm. destruct m as [|[|m]]; [reflexivity|reflexivity|lia].
  - lia.
Defined.

(** *** Sleeping *)

(** X19: for every validity duration (a nonnegative [int64]) the loop asks
    for a sleep of between [0] and [10000] milliseconds: the product with
    [time.Millisecond] does not wrap around, so the duration handed to
    [time.Sleep] is never negative and never above ten seconds, and with a
    validity under [100] it is zero -- the loop does not pause between two
    refresh checks. *)
Theorem sleep_bounds {X509 Key : Type} (s : Server X509 Key) :
  0 <= CaValidity (Opts s) < 2 ^ 63 →
  let i := pollInterval (enter s) in
  0 <= i <= 10000
  ∧ sleepNanos i = i * 1000000
  ∧ 0 <= sleepNanos i <= 10000000000
  ∧ (CaValidity (Opts s) < 100 → sleepNanos i = 0).
Proof.
  intros Hv. cbv zeta. cbn [pollInterval enter].
  rewrite (interval_exact _ Hv).
  assert (Hq : 0 <= CaValidity (Opts s) / 100) by (apply Z.div_pos; lia).
  set (i := Z.min (CaValidity (Opts s) / 100) 10000).
  assert (Hi : 0 <= i <= 10000) by (unfold i; lia).
  assert (Hwrap : sleepNanos i = i * 1000000).
  { unfold sleepNanos, wrap64.
    change (2 ^ 63) with 9223372036854775808.
    change (2 ^ 64) with 18446744073709551616.
    rewrite Z.mod_small; lia. }
  split; [exact Hi|]. split; [exact Hwrap|]. split; [rewrite Hwrap; lia|].
  intros Hshort. rewrite Hwrap. unfold i. rewrite Z.div_small by lia. reflexivity.
Qed.

Lemma sleep_bounds_witness :
  0 <= CaValidity (Opts Scenario.firstStart) < 2 ^ 63
  ∧ sleepNanos (pollInterval (enter Scenario.firstStart))
    = pollInterval (enter Scenario.firstStart) * 1000000.
Proof.
  assert (Hv : 0 <= CaValidity (Opts Scenario.firstStart) < 2 ^ 63)
    by (split; [discriminate|reflexivity]).
  split; [exact Hv|].
  exact (proj1 (proj2 (sleep_bounds Scenario.firstStart Hv))).
Defined.

(** *** Doing it twice *)

(** X21: on a cluster that answers every request a second
    [UpdateAuthorityCert] with the same content is a read: it sends one
    [Get] and changes no table. *)
Theorem UpdateAuthorityCert_twice (cert pri ns : string) (c : Cluster) :
  reliable c →
  let c1 := snd (UpdateAuthorityCert cert pri ns c) in
  snd (UpdateAuthorityCert cert pri ns c1)
  = persisted [mkRequest VGet RSecrets ns None] (Secrets c1) c1.
Proof.
  intros Hrel. cbv zeta.
  destruct (UpdateAuthorityCert_stored cert pri ns c Hrel) as (s & Hs & Hcert & Hpri).
  destruct (UpdateAuthorityCert_outage cert pri ns c) as (Hout & _).
  set (c1 := snd (UpdateAuthorityCert cert pri ns c)) in *.
  assert (Hrel1 : reliable c1) by (intros i; by rewrite Hout).
  pose proof (UpdateAuthorityCert_reliable cert pri ns c1 Hrel1) as Hcase.
  rewrite Hs, Hcert, Hpri, !String.eqb_refl in Hcase. simpl in Hcase.
  destruct Hcase as [Hsec Hreq].
  destruct (UpdateAuthorityCert_outage cert pri ns c1) as (Hout1 & Hns1 & Hcm1).
  destruct (snd (UpdateAuthorityCert cert pri ns c1)) as [n2 s2 m2 r2 o2].
  simpl in *. unfold persisted. by subst.
Qed.

Lemma UpdateAuthorityCert_twice_witness :
  reliable Cases.annotated
  ∧ Secrets (snd (UpdateAuthorityCert "CA-NEW" "KEY-NEW" "mesh"
                    (snd (UpdateAuthorityCert "CA-NEW" "KEY-NEW" "mesh" Cases.annotated))))
    = Secrets (snd (UpdateAuthorityCert "CA-NEW" "KEY-NEW" "mesh" Cases.annotated)).
Proof.
  assert (Hrel : reliable Cases.annotated) by (intros i; reflexivity).
  split; [exact Hrel|].
  exact (f_equal Secrets
           (UpdateAuthorityCert_twice "CA-NEW" "KEY-NEW" "mesh" Cases.annotated Hrel)).
Defined.

(** X22: a broadcast repeated after one that returned [true] leaves every
    trust record exactly as the first one left it, whatever gets lost the
    second time. *)
Theorem UpdateAuthorityPublicKey_twice (cert : string) (c : Cluster) :
  fst (UpdateAuthorityPublicKey cert c) = true →
  ConfigMaps (snd (UpdateAuthorityPublicKey cert
                     (snd (UpdateAuthorityPublicKey cert c))))
  = ConfigMaps (snd (UpdateAuthorityPublicKey cert c)).
Proof.
  intros Hok. set (c1 := snd (UpdateAuthorityPublicKey cert c)).
  assert (Hns : Namespaces c1 = Namespaces c).
  { unfold c1. by destruct (UpdateAuthorityPublicKey_answered cert c)
      as (new & table & -> & _). }
  apply map_eq. intros n.
  destruct (decide (n ∈ Namespaces c ∧ n ≠ "kube-system")) as [[Hin Hsys]|Hout].
  - assert (Ht : trusts cert n c1) by (by apply UpdateAuthorityPublicKey_true).
    by destruct (UpdateAuthorityPublicKey_trusted cert n c1 Ht) as [-> _].
  - rewrite UpdateAuthorityPublicKey_unfold. destruct (lost c1); [done|].
    destruct (decide (n = "kube-system")) as [->|Hsys].
    + by destruct (rangeItems_system cert (Namespaces c1)
                     (logged VList RNamespaces "" None c1)) as [-> _].
    + assert (Hn : n ∉ Namespaces c1) by (rewrite Hns; tauto).
      by destruct (rangeItems_frame cert n (Namespaces c1)
                     (logged VList RNamespaces "" None c1) Hn) as [-> _].
Qed.

Lemma UpdateAuthorityPublicKey_twice_witness :
  fst (UpdateAuthorityPublicKey "CA-NEW" Cases.annotated) = true
  ∧ ConfigMaps (snd (UpdateAuthorityPublicKey "CA-NEW"
                       (snd (UpdateAuthorityPublicKey "CA-NEW" Cases.annotated))))
    = ConfigMaps (snd (UpdateAuthorityPublicKey "CA-NEW" Cases.annotated)).
Proof.
  split; [reflexivity|].
  exact (UpdateAuthorityPublicKey_twice "CA-NEW" Cases.annotated eq_refl).
Defined.
